(** * Task hierarchy: the [tasks] workflow-field migration and its consumers

    - [Sqlite]: a small executable model of the fragment of SQLite that the
      migration [20260103193000_add_task_track_parent_task_id_phase_key.sql]
      relies on: tables with typed, defaulted columns, plain and unique
      (optionally partial) indexes, and row-level writes that are checked
      against them.
    - [Migration]: the six statements of the migration, transcribed one to
      one, and what holds of a store they have been applied to.
    - [Writers]: concurrent writers, as interleavings of whole statements.
    - [Frontend]: the [useTaskChildren] hook, the [useQuery] observer it
      configures, and the [relatedTasks] computation of
      [ViewRelatedTasksDialog].
    - [Example]: a small [tasks] table to run the migration on.
    - [Dialog]: the handlers of [ViewRelatedTasksDialog].

    The definitions come first, the properties after them. *)

From stdpp Require Import gmap strings list fin_maps.
From Stdlib.Strings Require Import Byte.

Open Scope string_scope.
Open Scope list_scope.

(** ** Results of fallible statements *)

Inductive error :=
  | NoSuchTable (t : string)
  | NoSuchColumn (t c : string)
  | DuplicateColumn (c : string)
  | NotNullWithNullDefault
  | NameTakenByTable (n : string)
  | IndexAlreadyExists (n : string)
  | NotNullViolation (t c : string)
  | UniqueViolation (index : string)
  | ForeignKeyViolation.

Inductive result (A : Type) :=
  | Ok (a : A)
  | Err (e : error).
Arguments Ok {A} a.
Arguments Err {A} e.

Global Instance result_bind : MBind result := λ A B k m,
  match m with
  | Ok a => k a
  | Err e => Err e
  end.

Global Instance result_fmap : FMap result := λ A B f m,
  match m with
  | Ok a => Ok (f a)
  | Err e => Err e
  end.

Definition is_ok {A} (m : result A) : bool :=
  match m with Ok _ => true | Err _ => false end.

(** The errors that SQLite reports as [SQLITE_CONSTRAINT]. *)
Definition is_constraint_violation (e : error) : bool :=
  match e with
  | NotNullViolation _ _ | UniqueViolation _ | ForeignKeyViolation => true
  | _ => false
  end.

Global Instance error_eq_dec : EqDecision error.
Proof. solve_decision. Defined.

Module Sqlite.

(** ** Values and rows

    The storage classes the application binds for the columns at hand: NULL,
    text and blob (UUIDs are stored as 16 raw bytes).  Text is compared with
    the default BINARY collation and a blob never equals a text, so equality
    of stored values is structural equality. *)

Global Instance byte_eq_dec : EqDecision byte := Byte.byte_eq_dec.

Inductive value :=
  | VNull
  | VText (s : string)
  | VBlob (b : list byte).

Global Instance value_eq_dec : EqDecision value.
Proof. solve_decision. Defined.

Definition is_null (v : value) : bool :=
  match v with VNull => true | _ => false end.

(** A row maps column names to values; a column the row does not mention
    reads as NULL. *)
Abbreviation row := (gmap string value).

Definition cell (r : row) (c : string) : value := default VNull (r !! c).

(** ** Schema

    Names of tables, columns and indexes are compared as they are written;
    SQLite folds their case, so a schema is taken with its names in one
    spelling. *)

(** The declared type of a column; SQLite records it and does not hold the
    stored values to it. *)
Inductive sqltype := TEXT | BLOB.

Record column_def := ColumnDef {
  col_name : string;
  col_type : sqltype;
  col_notnull : bool;
  col_default : option value;
  col_references : option (string * string)
}.

(** The value a column takes when a write does not supply one. *)
Definition default_value (c : column_def) : value :=
  default VNull (col_default c).

(** The expressions the migration's [WHERE] clause is made of. *)
Inductive expr :=
  | IsNotNull (c : string)
  | And (e1 e2 : expr).

Fixpoint eval (e : expr) (r : row) : bool :=
  match e with
  | IsNotNull c => negb (is_null (cell r c))
  | And e1 e2 => eval e1 r && eval e2 r
  end.

Fixpoint expr_cols (e : expr) : list string :=
  match e with
  | IsNotNull c => [c]
  | And e1 e2 => expr_cols e1 ++ expr_cols e2
  end.

Record index_def := IndexDef {
  idx_name : string;
  idx_table : string;
  idx_unique : bool;
  idx_cols : list string;
  idx_where : option expr
}.

Record table := Table {
  tbl_cols : list column_def;
  tbl_rows : list row
}.

(** Index names live in one name space for the whole database. *)
Record db := Db {
  db_tables : gmap string table;
  db_indexes : list index_def
}.

Definition lookup_table (t : string) (d : db) : result table :=
  match db_tables d !! t with
  | Some tb => Ok tb
  | None => Err (NoSuchTable t)
  end.

Definition has_column (c : string) (tb : table) : bool :=
  existsb (fun cd => bool_decide (col_name cd = c)) (tbl_cols tb).

Definition index_exists (n : string) (d : db) : bool :=
  existsb (fun ix => bool_decide (idx_name ix = n)) (db_indexes d).

Definition indexes_of (t : string) (d : db) : list index_def :=
  filter (fun ix => idx_table ix = t) (db_indexes d).

Definition set_rows (t : string) (tb : table) (rows : list row) (d : db) : db :=
  Db (<[t := Table (tbl_cols tb) rows]> (db_tables d)) (db_indexes d).

(** ** Index keys and uniqueness

    A row is entered in an index when it satisfies the index's [WHERE]
    clause (always, if there is none); its key is the tuple of the indexed
    columns.  Two entries of a unique index conflict when their keys are
    equal and hold no NULL: NULLs are distinct from one another. *)

Definition in_index (ix : index_def) (r : row) : bool :=
  match idx_where ix with
  | Some e => eval e r
  | None => true
  end.

Definition index_key (ix : index_def) (r : row) : list value :=
  map (cell r) (idx_cols ix).

Definition conflicts (ix : index_def) (r1 r2 : row) : bool :=
  in_index ix r1 && in_index ix r2
  && forallb (fun v => negb (is_null v)) (index_key ix r1)
  && bool_decide (index_key ix r1 = index_key ix r2).

Definition unique_ok (ix : index_def) (rows : list row) (r : row) : bool :=
  forallb (fun r' => negb (conflicts ix r' r)) rows.

Fixpoint rows_unique (ix : index_def) (rows : list row) : bool :=
  match rows with
  | [] => true
  | r :: rs => unique_ok ix rs r && rows_unique ix rs
  end.

(** No two distinct positions of [rows] hold conflicting rows. *)
Definition pairwise_ok (ix : index_def) (rows : list row) : Prop :=
  ∀ i j r1 r2, i ≠ j → rows !! i = Some r1 → rows !! j = Some r2 →
               conflicts ix r1 r2 = false.

(** ** Schema statements *)

(** [ALTER TABLE t ADD COLUMN c]: the column name must be new, and a
    [NOT NULL] column needs a non-NULL default, which the rows already
    stored take. *)
Definition alter_table_add_column (t : string) (c : column_def) (d : db)
  : result db :=
  tb ← lookup_table t d;
  if has_column (col_name c) tb then Err (DuplicateColumn (col_name c))
  else if col_notnull c && is_null (default_value c)
  then Err NotNullWithNullDefault
  else Ok (Db (<[t := Table (tbl_cols tb ++ [c])
                        (map (insert (col_name c) (default_value c))
                             (tbl_rows tb))]> (db_tables d))
              (db_indexes d)).

Definition missing_column (tb : table) (cs : list string) : option string :=
  find (fun c => negb (has_column c tb)) cs.

(** [CREATE [UNIQUE] INDEX [IF NOT EXISTS] n ON t(cols) [WHERE w]]: an index
    of that name makes the statement an error, or with [IF NOT EXISTS] a
    no-op whatever the existing index looks like; a unique index cannot be
    built over rows that already conflict. *)
Definition create_index (unique if_not_exists : bool) (n t : string)
    (cols : list string) (w : option expr) (d : db) : result db :=
  tb ← lookup_table t d;
  if bool_decide (is_Some (db_tables d !! n)) then Err (NameTakenByTable n)
  else if index_exists n d
  then (if if_not_exists then Ok d else Err (IndexAlreadyExists n))
  else
    match missing_column tb (cols ++ from_option expr_cols [] w) with
    | Some c => Err (NoSuchColumn t c)
    | None =>
        let ix := IndexDef n t unique cols w in
        if unique && negb (rows_unique ix (tbl_rows tb))
        then Err (UniqueViolation n)
        else Ok (Db (db_tables d) (db_indexes d ++ [ix]))
    end.

Inductive stmt :=
  | AlterTableAddColumn (t : string) (c : column_def)
  | CreateIndex (unique if_not_exists : bool) (n t : string)
      (cols : list string) (w : option expr).

Definition exec (s : stmt) (d : db) : result db :=
  match s with
  | AlterTableAddColumn t c => alter_table_add_column t c d
  | CreateIndex u ine n t cols w => create_index u ine n t cols w d
  end.

(** A script stops at its first failing statement. *)
Fixpoint run (ss : list stmt) (d : db) : result db :=
  match ss with
  | [] => Ok d
  | s :: ss' => d' ← exec s d; run ss' d'
  end.

(** ** Row-level writes

    A write names the columns it supplies; the others take their defaults.
    The row is then checked in SQLite's order: [NOT NULL] columns first, the
    unique indexes of the table next (in creation order), and foreign keys
    when the statement ends. *)

Definition check_columns (t : string) (tb : table) (a : row) : result unit :=
  match missing_column tb (map fst (map_to_list a)) with
  | Some c => Err (NoSuchColumn t c)
  | None => Ok ()
  end.

Definition build_row (cols : list column_def) (a : row) : row :=
  foldr (fun c r =>
           <[col_name c := default (default_value c) (a !! col_name c)]> r)
        ∅ cols.

Fixpoint check_not_null (t : string) (cols : list column_def) (r : row)
  : result unit :=
  match cols with
  | [] => Ok ()
  | c :: cols' =>
      if col_notnull c && is_null (cell r (col_name c))
      then Err (NotNullViolation t (col_name c))
      else check_not_null t cols' r
  end.

Fixpoint check_unique (ixs : list index_def) (rows : list row) (r : row)
  : result unit :=
  match ixs with
  | [] => Ok ()
  | ix :: ixs' =>
      if idx_unique ix && negb (unique_ok ix rows r)
      then Err (UniqueViolation (idx_name ix))
      else check_unique ixs' rows r
  end.

(** A non-NULL value in a column declared [REFERENCES pt(pc)] needs a row of
    [pt] whose [pc] holds it. *)
Definition parent_exists (d : db) (pt pc : string) (v : value) : bool :=
  match db_tables d !! pt with
  | Some ptb => existsb (fun p => bool_decide (cell p pc = v)) (tbl_rows ptb)
  | None => false
  end.

Definition fk_ok (d : db) (c : column_def) (r : row) : bool :=
  match col_references c with
  | Some (pt, pc) =>
      is_null (cell r (col_name c)) || parent_exists d pt pc (cell r (col_name c))
  | None => true
  end.

Definition check_fk (d : db) (cols : list column_def) (r : row) : result unit :=
  if forallb (fun c => fk_ok d c r) cols then Ok () else Err ForeignKeyViolation.

(** Every stored row still finds the parents it references: checked at the
    end of a statement that removed or changed a row. *)
Definition table_fk_ok (d : db) (tb : table) : bool :=
  forallb (fun r => forallb (fun c => fk_ok d c r) (tbl_cols tb)) (tbl_rows tb).

Definition check_fk_all (d : db) : result unit :=
  if forallb (fun kv => table_fk_ok d kv.2) (map_to_list (db_tables d))
  then Ok () else Err ForeignKeyViolation.

(** [INSERT INTO t (dom a) VALUES (a)]. *)
Definition insert_into (t : string) (a : row) (d : db) : result db :=
  tb ← lookup_table t d;
  check_columns t tb a;;
  let r := build_row (tbl_cols tb) a in
  check_not_null t (tbl_cols tb) r;;
  check_unique (indexes_of t d) (tbl_rows tb) r;;
  let d' := set_rows t tb (tbl_rows tb ++ [r]) d in
  check_fk d' (tbl_cols tb) r;;
  Ok d'.

(** [UPDATE t SET a] on the row stored at position [i]; no row there, no
    change. *)
Definition update_row (t : string) (i : nat) (a : row) (d : db) : result db :=
  tb ← lookup_table t d;
  check_columns t tb a;;
  match tbl_rows tb !! i with
  | None => Ok d
  | Some old =>
      let r := a ∪ old in
      check_not_null t (tbl_cols tb) r;;
      check_unique (indexes_of t d) (delete i (tbl_rows tb)) r;;
      let d' := set_rows t tb (<[i := r]> (tbl_rows tb)) d in
      check_fk_all d';;
      Ok d'
  end.

(** [DELETE FROM t] of the row stored at position [i]. *)
Definition delete_row (t : string) (i : nat) (d : db) : result db :=
  tb ← lookup_table t d;
  match tbl_rows tb !! i with
  | None => Ok d
  | Some _ =>
      let d' := set_rows t tb (delete i (tbl_rows tb)) d in
      check_fk_all d';;
      Ok d'
  end.

Inductive write :=
  | Insert (t : string) (a : row)
  | Update (t : string) (i : nat) (a : row)
  | Delete (t : string) (i : nat).

Definition exec_write (w : write) (d : db) : result db :=
  match w with
  | Insert t a => insert_into t a d
  | Update t i a => update_row t i a d
  | Delete t i => delete_row t i d
  end.

(** A rejected write leaves the store as it was. *)
Definition apply_write (d : db) (w : write) : db :=
  match exec_write w d with
  | Ok d' => d'
  | Err _ => d
  end.

Definition apply_writes (ws : list write) (d : db) : db :=
  foldl apply_write d ws.

(** [DROP INDEX n]. *)
Definition drop_index (n : string) (d : db) : db :=
  Db (db_tables d) (filter (fun ix => idx_name ix ≠ n) (db_indexes d)).

Definition column_names (t : string) (d : db) : list string :=
  match db_tables d !! t with
  | Some tb => map col_name (tbl_cols tb)
  | None => []
  end.

(** Every index is over columns of its table, as SQLite ensures when it
    creates one. *)
Definition indexes_resolved (d : db) : Prop :=
  ∀ ix tb, ix ∈ db_indexes d → db_tables d !! idx_table ix = Some tb →
    missing_column tb (idx_cols ix ++ from_option expr_cols [] (idx_where ix))
    = None.

(** [SELECT * FROM t]. *)
Definition select_all (t : string) (d : db) : list row :=
  match db_tables d !! t with
  | Some tb => tbl_rows tb
  | None => []
  end.

End Sqlite.

(** * The migration *)

Module Migration.
Import Sqlite.

Definition track : column_def :=
  ColumnDef "track" TEXT true (Some (VText "quick")) None.
Definition parent_task_id : column_def :=
  ColumnDef "parent_task_id" BLOB false None None.
Definition phase_key : column_def :=
  ColumnDef "phase_key" TEXT false None None.

Definition add_columns : list stmt :=
  [ AlterTableAddColumn "tasks" track;
    AlterTableAddColumn "tasks" parent_task_id;
    AlterTableAddColumn "tasks" phase_key ].

Definition create_indexes : list stmt :=
  [ CreateIndex false true "idx_tasks_parent_task_id" "tasks"
      ["parent_task_id"] None;
    CreateIndex false true "idx_tasks_track" "tasks" ["track"] None;
    CreateIndex true true "ux_tasks_parent_phase" "tasks"
      ["parent_task_id"; "phase_key"]
      (Some (And (IsNotNull "parent_task_id") (IsNotNull "phase_key"))) ].

Definition migration : list stmt := add_columns ++ create_indexes.

(** The index that [CREATE UNIQUE INDEX ... ux_tasks_parent_phase] enters
    in the schema. *)
Definition ux_tasks_parent_phase : index_def :=
  IndexDef "ux_tasks_parent_phase" "tasks" true
    ["parent_task_id"; "phase_key"]
    (Some (And (IsNotNull "parent_task_id") (IsNotNull "phase_key"))).

(** The migration has not been applied to [d]: its unique index is not in
    the schema. *)
Definition unmigrated (d : db) : Prop :=
  index_exists "ux_tasks_parent_phase" d = false.

(** [r1] occupies a phase slot, a parent and a phase both given, and [r2]
    names the same one. *)
Definition same_phase_slot (r1 r2 : row) : Prop :=
  cell r1 "parent_task_id" ≠ VNull ∧ cell r1 "phase_key" ≠ VNull
  ∧ cell r1 "parent_task_id" = cell r2 "parent_task_id"
  ∧ cell r1 "phase_key" = cell r2 "phase_key".

(** The write supplies no parent or no phase: the task claims no slot. *)
Definition unphased (a : row) : Prop :=
  cell a "parent_task_id" = VNull ∨ cell a "phase_key" = VNull.

(** The [tasks] table once the columns are added: the three columns come
    last, under names no earlier column has, and every row has a [track]. *)
Definition workflow_columns (tb : table) : Prop :=
  (∃ cols0, tbl_cols tb = cols0 ++ [track; parent_task_id; phase_key]
            ∧ Forall (fun c => col_name c ∉
                        ["track"; "parent_task_id"; "phase_key"]) cols0)
  ∧ Forall (fun r => is_null (cell r "track") = false) (tbl_rows tb).

Definition columns_added (d : db) : Prop :=
  ∃ tb, db_tables d !! "tasks" = Some tb ∧ workflow_columns tb.

(** The unique index is in the schema, alone under its name, and no two
    rows of [tasks] conflict on it. *)
Definition phase_indexed (d : db) : Prop :=
  ux_tasks_parent_phase ∈ db_indexes d
  ∧ (∀ ix, ix ∈ db_indexes d → idx_name ix = "ux_tasks_parent_phase" →
       ix = ux_tasks_parent_phase)
  ∧ ∀ tb, db_tables d !! "tasks" = Some tb →
          pairwise_ok ux_tasks_parent_phase (tbl_rows tb).

(** The other unique indexes of [tasks] are over neither of the two
    columns of the phase slot. *)
Definition unrelated_indexes (d : db) : Prop :=
  ∀ ix, ix ∈ db_indexes d → idx_table ix = "tasks" → idx_unique ix = true →
        idx_name ix ≠ "ux_tasks_parent_phase" →
        ∀ c, c ∈ idx_cols ix ++ from_option expr_cols [] (idx_where ix) →
             c ≠ "parent_task_id" ∧ c ≠ "phase_key".

(** The checks an insert into [tasks] goes through, but for the unique
    index of the migration: the columns the write names exist, no
    [NOT NULL] column is left NULL, no other unique index of the table has
    the key already, and every reference finds its parent. *)
Definition passes_other_checks (a : row) (d : db) : bool :=
  match db_tables d !! "tasks" with
  | None => false
  | Some tb =>
      let r := build_row (tbl_cols tb) a in
      forallb (fun c => has_column c tb) (map fst (map_to_list a))
      && forallb (fun c => negb (col_notnull c && is_null (cell r (col_name c))))
           (tbl_cols tb)
      && forallb (fun ix => negb (idx_unique ix)
                            || bool_decide (idx_name ix = "ux_tasks_parent_phase")
                            || unique_ok ix (tbl_rows tb) r)
           (indexes_of "tasks" d)
      && forallb (fun c => fk_ok (set_rows "tasks" tb (tbl_rows tb ++ [r]) d) c r)
           (tbl_cols tb)
  end.

(** The same for rows inserted one after the other, each checked against
    the store as the inserts before it left it. *)
Fixpoint pass_in_turn (rows : list row) (d : db) : bool :=
  match rows with
  | [] => true
  | a :: rows' =>
      passes_other_checks a d
      && pass_in_turn rows' (apply_write d (Insert "tasks" a))
  end.

End Migration.

(** * Concurrent writers

    SQLite lets one connection write at a time: a writer holds the database
    lock for the whole statement, so the index check and the insertion of
    the row cannot be separated by another writer's statement.  A run of
    concurrent writers is therefore an interleaving of whole statements, in
    any order. *)

Module Writers.
Import Sqlite Migration.

Record system := System {
  store : db;
  pending : list write;
  outcomes : list (result unit)
}.

Definition outcome (w : write) (d : db) : result unit :=
  exec_write w d ≫= fun _ => Ok ().

(** Any writer still pending may be the next to get the lock. *)
Inductive step : system → system → Prop :=
  | step_writer d ws1 w ws2 log :
      step (System d (ws1 ++ w :: ws2) log)
           (System (apply_write d w) (ws1 ++ ws2) (log ++ [outcome w d])).

Definition successes (log : list (result unit)) : nat :=
  length (filter (fun o => is_ok o = true) log).

(** What holds of the system at every point of a run in which the writers
    [reqs] all insert a task for the phase slot [(p, k)] into the store
    [d]: nothing happened yet, or one writer was accepted, its row holds the
    slot, and everyone after it was turned away with a constraint
    violation. *)
Definition race_inv (d : db) (p k : value) (reqs : list row) (s : system)
  : Prop :=
  (∀ w, w ∈ pending s → ∃ a, w = Insert "tasks" a ∧ a ∈ reqs)
  ∧ length (outcomes s) + length (pending s) = length reqs
  ∧ ((store s = d ∧ outcomes s = [])
     ∨ (columns_added (store s) ∧ phase_indexed (store s)
        ∧ (∀ t, column_names t (store s) = column_names t d)
        ∧ (∃ r, r ∈ select_all "tasks" (store s)
                ∧ cell r "parent_task_id" = p ∧ cell r "phase_key" = k)
        ∧ successes (outcomes s) = 1
        ∧ ∀ e, Err e ∈ outcomes s → is_constraint_violation e = true)).

End Writers.

(** * The client side *)

Module Frontend.

(** The fields of [Task] (shared/types) that the dialog reads. *)
Record Task := {
  id : string;
  title : string;
  description : option string
}.

Global Instance Task_eq_dec : EqDecision Task.
Proof. solve_decision. Defined.

(** ** [useTaskChildren] *)

(** [number | false]; intervals and counts are whole numbers here. *)
Inductive number_or_false :=
  | Number (n : Z)
  | JsFalse.

(** [Options]: each field may be left out. *)
Record Options := {
  opt_enabled : option bool;
  opt_refetchInterval : option number_or_false;
  opt_staleTime : option Z;
  opt_retry : option number_or_false
}.

(** A request to the tasks API.  [taskId!] only silences the type checker:
    the call receives [taskId] as it is, [undefined] included. *)
Inductive api_call :=
  | getChildren (taskId : option string).

(** What the hook hands to [useQuery]. *)
Record query := {
  queryKey : string * option string;
  queryFn : unit → api_call;
  enabled : bool;
  refetchInterval : number_or_false;
  staleTime : Z;
  retry : number_or_false
}.

Definition taskChildrenKeys_byTask (taskId : option string)
  : string * option string :=
  ("taskChildren", taskId).

(** [!!taskId]: [undefined] and the empty string are falsy. *)
Definition truthy (taskId : option string) : bool :=
  match taskId with
  | None => false
  | Some s => negb (String.eqb s "")
  end.

(** [a ?? b]. *)
Definition nullish {A} (a : option A) (b : A) : A := default b a.

Definition useTaskChildren (taskId : option string) (opts : option Options)
  : query :=
  let enabled := nullish (opts ≫= opt_enabled) true && truthy taskId in
  {| queryKey := taskChildrenKeys_byTask taskId;
     queryFn := fun _ => getChildren taskId;
     enabled := enabled;
     refetchInterval := nullish (opts ≫= opt_refetchInterval) JsFalse;
     staleTime := nullish (opts ≫= opt_staleTime) 10000%Z;
     retry := nullish (opts ≫= opt_retry) (Number 2) |}.

(** ** [useQuery]

    The hook returns what [useQuery] returns, [refetch] included, and the
    dialog's retry button calls it.  What follows is TanStack Query's
    observer with the options the hook sets and the library's defaults for
    the others ([refetchOnMount], [refetchOnWindowFocus] and
    [refetchOnReconnect] all on). *)

(** What makes the observer consider a fetch. *)
Inductive trigger :=
  | mounted         (* the component mounts, or the query key changes *)
  | window_focus    (* the window regains focus *)
  | reconnect       (* the network comes back *)
  | invalidated     (* [invalidateQueries] on a matching key *)
  | interval_tick   (* the [refetchInterval] timer fires *)
  | refetch_call.   (* the caller runs the [refetch] that [useQuery] returned *)

(** An occasion on which no fetch of the query is in flight: what sets it
    off, how old the cached data is by then in milliseconds ([None]: no
    data yet), and how many attempts in a row fail from here on. *)
Record occasion := {
  trig : trigger;
  age : option Z;
  failures : nat
}.

(** Data is stale once it is [staleTime] old; no data is stale data. *)
Definition is_stale (q : query) (o : occasion) : bool :=
  match age o with
  | None => true
  | Some t => (staleTime q <=? t)%Z
  end.

(** The timer runs for a [refetchInterval] that is a positive number. *)
Definition polls (q : query) : bool :=
  match refetchInterval q with
  | Number n => (0 <? n)%Z
  | JsFalse => false
  end.

(** [enabled: false] switches off every fetch the observer would start by
    itself; a call of [refetch] fetches all the same. *)
Definition starts_fetch (q : query) (o : occasion) : bool :=
  match trig o with
  | mounted | window_focus | reconnect => enabled q && is_stale q o
  | invalidated => enabled q
  | interval_tick => enabled q && polls q
  | refetch_call => true
  end.

(** [retry: n] runs a failed query function up to [n] more times,
    [retry: false] not again. *)
Definition retries (r : number_or_false) : nat :=
  match r with
  | Number n => Z.to_nat n
  | JsFalse => 0
  end.

Definition attempts (q : query) (o : occasion) : nat :=
  S (failures o `min` retries (retry q)).

(** The runs of the query function on one occasion, and over a history. *)
Definition fetch (q : query) (o : occasion) : list api_call :=
  if starts_fetch q o then replicate (attempts q o) (queryFn q ()) else [].

Definition calls (q : query) (os : list occasion) : list api_call :=
  os ≫= fetch q.


(** ** [relatedTasks] of [ViewRelatedTasksDialog] *)

(** The part of the relationships response the dialog reads. *)
Record TaskRelationships := {
  parent_task : option Task;
  children : list Task
}.

(** A JavaScript [Map] keeps its keys in order of first insertion; [set] on
    a key already present replaces the value where it stands. *)
Fixpoint Map_set (k : string) (v : Task) (m : list (string * Task))
  : list (string * Task) :=
  match m with
  | [] => [(k, v)]
  | (k', v') :: m' =>
      if decide (k' = k) then (k, v) :: m' else (k', v') :: Map_set k v m'
  end.

Definition Map_values (m : list (string * Task)) : list Task := map snd m.

Definition set_each (cs : list Task) (byId : list (string * Task))
  : list (string * Task) :=
  foldl (fun m child => Map_set (id child) child m) byId cs.

(** [relationships] is [undefined] until its query has data, and so is
    the children query's [data], which the dialog defaults to [[]]. *)
Definition relatedTasks (relationships : option TaskRelationships)
    (data : option (list Task)) : list Task :=
  let taskChildren := nullish data [] in
  let byId := [] in
  let byId :=
    match relationships ≫= parent_task with
    | Some p => Map_set (id p) p byId
    | None => byId
    end in
  let byId :=
    match children <$> relationships with
    | Some cs => set_each cs byId
    | None => byId
    end in
  let byId := set_each taskChildren byId in
  Map_values byId.

(** The tasks in the order the dialog feeds them to the map. *)
Definition sources (relationships : option TaskRelationships)
    (data : option (list Task)) : list Task :=
  (from_option (fun r => option_list (parent_task r) ++ children r) []
     relationships
   ++ nullish data [])%list.

End Frontend.

(** * A store to run the migration on *)

Module Example.
Import Sqlite Migration.

(** Modelled from the spec: the [tasks] table as it stands before this
    migration.  The migrations that create it are not part of the sources at
    hand; the spec gives a task a unique 128-bit [id] and the dialog reads
    its [title] and [description].  The primary key is SQLite's automatic
    unique index. *)
Definition tasks_v0 : table :=
  Table [ ColumnDef "id" BLOB true None None;
          ColumnDef "title" TEXT true None None;
          ColumnDef "description" TEXT false None None ]
        [ {[ "id" := VBlob (replicate 16 x00);
             "title" := VText "from before";
             "description" := VNull ]} ].

Definition base : db :=
  Db {[ "tasks" := tasks_v0 ]}
     [ IndexDef "sqlite_autoindex_tasks_1" "tasks" true ["id"] None ].

Definition uuid (b : byte) : value := VBlob (replicate 16 b).

Definition task (i : byte) (title : string) : row :=
  {[ "id" := uuid i; "title" := VText title ]}.

Definition child (i : byte) (title : string) (parent : byte) (phase : string)
  : row :=
  <[ "parent_task_id" := uuid parent ]>
    (<[ "phase_key" := VText phase ]> (task i title)).

(** The example store after the migration. *)
Definition migrated : db :=
  match run migration base with
  | Ok d => d
  | Err _ => base
  end.

(** Parent A, then B in phase "design" and C in phase "review" under it. *)
Definition family : list write :=
  [ Insert "tasks" (task x01 "A");
    Insert "tasks" (child x02 "B" x01 "design");
    Insert "tasks" (child x03 "C" x01 "review") ].

(** The migrated example store with the family in it. *)
Definition store : db := apply_writes family migrated.

(** Tasks that claim no slot: E and F under A with no phase, G in phase
    "design" with no parent, H with neither. *)
Definition siblings : list row :=
  [ <[ "parent_task_id" := uuid x01 ]> (task x05 "E");
    <[ "parent_task_id" := uuid x01 ]> (task x06 "F");
    <[ "phase_key" := VText "design" ]> (task x07 "G");
    task x08 "H" ].

(** Three writers, each with its own task for phase "design" under A. *)
Definition rivals : list row :=
  [ child x02 "B" x01 "design";
    child x03 "B'" x01 "design";
    child x04 "B''" x01 "design" ].

(** The end of a race of the three in which the second was served first. *)
Definition race_end : Writers.system :=
  let d := apply_writes [Insert "tasks" (task x01 "A")] migrated in
  let w1 := Insert "tasks" (child x02 "B" x01 "design") in
  let w2 := Insert "tasks" (child x03 "B'" x01 "design") in
  let w3 := Insert "tasks" (child x04 "B''" x01 "design") in
  Writers.System (apply_writes [w2; w1; w3] d) []
    [ Writers.outcome w2 d;
      Writers.outcome w1 (apply_write d w2);
      Writers.outcome w3 (apply_write (apply_write d w2) w1) ].

(** The example table with an index already under the name of the
    migration's unique index, a plain one over [id]. *)
Definition taken_name : db :=
  Db (db_tables base)
     (db_indexes base
      ++ [ IndexDef "ux_tasks_parent_phase" "tasks" false ["id"] None ]).

End Example.

(** * When the migration applies *)

Module Applies.
Import Sqlite Migration.

Definition new_columns : list string :=
  ["track"; "parent_task_id"; "phase_key"].

Definition new_indexes : list string :=
  ["idx_tasks_parent_task_id"; "idx_tasks_track"; "ux_tasks_parent_phase"].

(** There is a [tasks] table, it has none of the three columns yet, and no
    table goes by the name of one of the three indexes. *)
Definition migratable (d : db) : Prop :=
  ∃ tb, db_tables d !! "tasks" = Some tb
        ∧ Forall (fun c => has_column c tb = false) new_columns
        ∧ Forall (fun n => db_tables d !! n = None) new_indexes.

(** What the migration makes of a row that was stored before it. *)
Definition migrated_row (r : row) : row :=
  <["phase_key" := VNull]>
    (<["parent_task_id" := VNull]> (<["track" := VText "quick"]> r)).

End Applies.

(** * The handlers of [ViewRelatedTasksDialog] *)

Module Dialog.
Import Frontend.

(** The fields of [Workspace] (shared/types) that the dialog reads. *)
Record Workspace := {
  workspace_id : string;
  branch : string
}.

(** What a handler does to the world around it, in order. *)
Inductive action :=
  | modal_hide
  | onNavigateToTask (taskId : string)
  | stopPropagation
  | openTaskForm (projectId parentTaskAttemptId initialBaseBranch : string)
  | refetch
  | refetchChildren.

(** How a promise ends. *)
Inductive settled := fulfilled | rejected.

(** [!projectId]: the empty string is falsy. *)
Definition blank (s : string) : bool := String.eqb s "".

(** [handleOpenChange]: [if (!open) modal.hide()]. *)
Definition handleOpenChange (open : bool) : list action :=
  if negb open then [modal_hide] else [].

(** [handleClickTask]: [onNavigateToTask?.(taskId); modal.hide()]; the
    callback is an optional prop. *)
Definition handleClickTask (has_onNavigateToTask : bool) (taskId : string)
  : list action :=
  (if has_onNavigateToTask then [onNavigateToTask taskId] else [])
  ++ [modal_hide].

(** [onRowClick] of the table. *)
Definition onRowClick (has_onNavigateToTask : bool) (task : Task)
  : list action :=
  handleClickTask has_onNavigateToTask (id task).

(** [handleCreateSubtask]: nothing without a project or an attempt;
    otherwise the modal is hidden, then the form is opened, and whatever
    becomes of the form's promise is caught. *)
Definition handleCreateSubtask (projectId : string)
    (attempt : option Workspace) (form : settled) : list action * settled :=
  match attempt with
  | Some at_ =>
      if blank projectId then ([], fulfilled)
      else ([modal_hide;
             openTaskForm projectId (workspace_id at_) (branch at_)],
            match form with
            | fulfilled => fulfilled
            | rejected => fulfilled
            end)
  | None => ([], fulfilled)
  end.

(** [disabled] of the button that calls it: [!projectId || !attempt]. *)
Definition create_disabled (projectId : string) (attempt : option Workspace)
  : bool :=
  blank projectId || negb (bool_decide (is_Some attempt)).

(** [onKeyDownCapture] of the dialog content. *)
Definition onKeyDownCapture (key : string) : list action :=
  if String.eqb key "Escape" then [stopPropagation; modal_hide] else [].

(** [onClick] of the retry button. *)
Definition retry_click : list action := [refetch; refetchChildren].

(** The children query of the dialog, [useTaskChildren(taskId)]: [taskId]
    is a prop of type [string], any string. *)
Definition children_query (taskId : string) : query :=
  useTaskChildren (Some taskId) None.

(** What an action asks of the children query: [refetchChildren] is its
    [refetch]. *)
Definition children_occasions (a : action) (data_age : option Z)
    (failing : nat) : list occasion :=
  match a with
  | refetchChildren =>
      [ {| trig := refetch_call; age := data_age; failures := failing |} ]
  | _ => []
  end.

(** The runs of [getChildren] that a click on the retry button sets off. *)
Definition retry_click_calls (taskId : string) (data_age : option Z)
    (failing : nat) : list api_call :=
  calls (children_query taskId)
    (retry_click ≫= fun a => children_occasions a data_age failing).

End Dialog.

(** * Properties *)

(** ** Results *)

Section Results.
Context {A B : Type}.

Lemma bind_Ok (m : result A) (k : A → result B) (b : B) :
  m ≫= k = Ok b ↔ ∃ a, m = Ok a ∧ k a = Ok b.
Proof.
  destruct m as [a|e]; simpl; split.
  - eauto.
  - by intros (? & [= <-] & ?).
  - done.
  - by intros (? & ? & ?).
Qed.

Lemma bind_Err (m : result A) (k : A → result B) (e : error) :
  m ≫= k = Err e ↔ m = Err e ∨ ∃ a, m = Ok a ∧ k a = Err e.
Proof.
  destruct m as [a|e']; simpl; split.
  - eauto.
  - by intros [|(? & [= <-] & ?)].
  - intros [= ->]; eauto.
  - by intros [[= ->]|(? & ? & ?)].
Qed.
End Results.

(** ** The schema statements *)

Section Statements.
Import Sqlite.

Lemma lookup_table_Ok t d tb :
  lookup_table t d = Ok tb ↔ db_tables d !! t = Some tb.
Proof.
  unfold lookup_table. destruct (db_tables d !! t); split; congruence.
Qed.

Lemma index_exists_true n d :
  index_exists n d = true ↔ ∃ ix, ix ∈ db_indexes d ∧ idx_name ix = n.
Proof.
  unfold index_exists. rewrite existsb_exists. split.
  - intros (ix & Hin & Hn). exists ix. rewrite list_elem_of_In.
    by apply bool_decide_eq_true in Hn.
  - intros (ix & Hin & Hn). exists ix. rewrite <- list_elem_of_In.
    by rewrite bool_decide_eq_true.
Qed.

Lemma index_exists_app n tables ixs ixs' :
  index_exists n (Db tables (ixs ++ ixs'))
  = index_exists n (Db tables ixs) || index_exists n (Db tables ixs').
Proof. unfold index_exists. simpl. apply existsb_app. Qed.

Lemma has_column_true c tb :
  has_column c tb = true ↔ ∃ cd, cd ∈ tbl_cols tb ∧ col_name cd = c.
Proof.
  unfold has_column. rewrite existsb_exists. split.
  - intros (cd & Hin & Hn). exists cd. rewrite list_elem_of_In.
    by apply bool_decide_eq_true in Hn.
  - intros (cd & Hin & Hn). exists cd. rewrite <- list_elem_of_In.
    by rewrite bool_decide_eq_true.
Qed.

(** What a successful [ADD COLUMN] did. *)
Lemma alter_table_add_column_Ok t c d d' :
  alter_table_add_column t c d = Ok d' →
  ∃ tb, db_tables d !! t = Some tb
        ∧ has_column (col_name c) tb = false
        ∧ (col_notnull c = true → is_null (default_value c) = false)
        ∧ d' = Db (<[t := Table (tbl_cols tb ++ [c])
                            (map (insert (col_name c) (default_value c))
                                 (tbl_rows tb))]> (db_tables d))
                  (db_indexes d).
Proof.
  unfold alter_table_add_column. intros H.
  apply bind_Ok in H as (tb & Htb%lookup_table_Ok & H).
  destruct (has_column (col_name c) tb) eqn:Hc; [done|].
  destruct (col_notnull c && is_null (default_value c)) eqn:Hn; [done|].
  injection H as <-. exists tb. split_and!; try done.
  intros Hnn. rewrite Hnn in Hn. done.
Qed.

(** [ADD COLUMN] of a column the table has is refused. *)
Lemma alter_table_add_column_duplicate t c d tb :
  db_tables d !! t = Some tb →
  has_column (col_name c) tb = true →
  alter_table_add_column t c d = Err (DuplicateColumn (col_name c)).
Proof.
  intros Htb Hc. unfold alter_table_add_column, lookup_table.
  rewrite Htb. simpl. by rewrite Hc.
Qed.

(** What a successful [CREATE INDEX IF NOT EXISTS] did: nothing, or it
    added the index at the end of the schema. *)
Lemma create_index_Ok u n t cols w d d' :
  create_index u true n t cols w d = Ok d' →
  ∃ tb, db_tables d !! t = Some tb
        ∧ db_tables d !! n = None
        ∧ db_tables d' = db_tables d
        ∧ ((index_exists n d = true ∧ d' = d)
           ∨ (index_exists n d = false
              ∧ missing_column tb (cols ++ from_option expr_cols [] w) = None
              ∧ (u = true → rows_unique (IndexDef n t u cols w) (tbl_rows tb) = true)
              ∧ db_indexes d' = db_indexes d ++ [IndexDef n t u cols w])).
Proof.
  unfold create_index. intros H.
  apply bind_Ok in H as (tb & Htb%lookup_table_Ok & H).
  case_bool_decide as Hn; [done|].
  exists tb. split; [done|]. split.
  { destruct (db_tables d !! n) eqn:E; [|done]. destruct Hn. eauto. }
  destruct (index_exists n d) eqn:Hix.
  { injection H as <-. eauto. }
  destruct (missing_column _ _) eqn:Hm; [done|].
  destruct (u && negb _) eqn:Hu; [done|].
  injection H as <-. split; [done|]. right. split_and!; try done.
  intros ->. simpl in Hu. by apply negb_false_iff in Hu.
Qed.

(** With [IF NOT EXISTS], an index name already in the schema turns the
    statement into a no-op. *)
Lemma create_index_exists u n t cols w d tb :
  db_tables d !! t = Some tb →
  db_tables d !! n = None →
  index_exists n d = true →
  create_index u true n t cols w d = Ok d.
Proof.
  intros Htb Hn Hix. unfold create_index, lookup_table. rewrite Htb. simpl.
  rewrite bool_decide_eq_false_2; [|rewrite Hn; by intros [? ?]].
  by rewrite Hix.
Qed.

Lemma create_index_index_exists u n t cols w d d' :
  create_index u true n t cols w d = Ok d' → index_exists n d' = true.
Proof.
  intros (tb & _ & _ & _ & [[? ->]|(_ & _ & _ & Hd')])%create_index_Ok;
    [done|].
  destruct d' as [tbs ixs]. simpl in Hd'. subst ixs.
  rewrite index_exists_app. unfold index_exists at 2. simpl.
  rewrite bool_decide_eq_true_2; [|done]. by rewrite orb_true_r.
Qed.

Lemma create_index_preserves_exists u n t cols w d d' m :
  create_index u true n t cols w d = Ok d' →
  index_exists m d = true → index_exists m d' = true.
Proof.
  intros (tb & _ & _ & _ & [[? ->]|(_ & _ & _ & Hd')])%create_index_Ok Hm;
    [done|].
  destruct d' as [tbs ixs], d as [tbs0 ixs0]. simpl in *. subst ixs.
  rewrite index_exists_app. unfold index_exists in *. simpl in *.
  by rewrite Hm.
Qed.
End Statements.

(** ** Running the migration *)

Section RunMigration.
Import Sqlite Migration.

Lemma run_app ss1 ss2 d : run (ss1 ++ ss2) d = run ss1 d ≫= run ss2.
Proof.
  revert d. induction ss1 as [|s ss1 IH]; intros d; simpl; [done|].
  destruct (exec s d); simpl; [apply IH|done].
Qed.

Lemma has_column_app c cols cols' rows rows' :
  has_column c (Table (cols ++ cols') rows)
  = has_column c (Table cols rows') || has_column c (Table cols' rows').
Proof. unfold has_column. simpl. apply existsb_app. Qed.

(** The three [ADD COLUMN]s: the names were new, the columns are appended
    in order, and the stored rows take the defaults. *)
Lemma run_add_columns d0 d :
  run add_columns d0 = Ok d →
  ∃ tb0, db_tables d0 !! "tasks" = Some tb0
    ∧ Forall (fun c => col_name c ∉
                ["track"; "parent_task_id"; "phase_key"]) (tbl_cols tb0)
    ∧ db_tables d
      = <["tasks" := Table (tbl_cols tb0 ++ [track; parent_task_id; phase_key])
            (map (fun r => <["phase_key" := VNull]>
                             (<["parent_task_id" := VNull]>
                                (<["track" := VText "quick"]> r)))
                 (tbl_rows tb0))]> (db_tables d0)
    ∧ db_indexes d = db_indexes d0.
Proof.
  unfold add_columns. simpl. intros H.
  apply bind_Ok in H as (d1 & H1 & H).
  apply bind_Ok in H as (d2 & H2 & H).
  apply bind_Ok in H as (d3 & H3 & [= <-]).
  apply alter_table_add_column_Ok in H1 as (tb0 & Htb0 & Hc1 & _ & ->).
  apply alter_table_add_column_Ok in H2 as (tb1 & Htb1 & Hc2 & _ & ->).
  apply alter_table_add_column_Ok in H3 as (tb2 & Htb2 & Hc3 & _ & ->).
  simpl in *. rewrite lookup_insert_eq in Htb1. injection Htb1 as <-.
  rewrite lookup_insert_eq in Htb2. injection Htb2 as <-.
  simpl in *. exists tb0. split; [done|].
  rewrite has_column_app with (rows' := []) in Hc2.
  apply orb_false_iff in Hc2 as [Hc2 _].
  rewrite has_column_app with (rows' := []) in Hc3.
  apply orb_false_iff in Hc3 as [Hc3 _].
  rewrite has_column_app with (rows' := []) in Hc3.
  apply orb_false_iff in Hc3 as [Hc3 _].
  split.
  - apply Forall_forall. intros c Hc Hin.
    assert (has_column (col_name c) tb0 = true) as Hhas
      by (apply has_column_true; eauto).
    unfold has_column in *. simpl in *.
    set_unfold in Hin. destruct Hin as [E|[E|[E|[]]]]; rewrite E in Hhas;
      congruence.
  - split; [|done]. rewrite !insert_insert_eq. do 2 f_equal.
    rewrite <- !app_assoc. simpl. f_equal.
    rewrite !map_map. done.
Qed.

Lemma create_index_other u n t cols w d d' m :
  create_index u true n t cols w d = Ok d' → m ≠ n →
  index_exists m d' = index_exists m d.
Proof.
  intros (tb & _ & _ & _ & [[? ->]|(_ & _ & _ & Hd')])%create_index_Ok Hm;
    [done|].
  destruct d' as [tbs ixs], d as [tbs0 ixs0]. simpl in *. subst ixs.
  rewrite index_exists_app. unfold index_exists. simpl.
  rewrite bool_decide_eq_false_2; [|done]. by rewrite !orb_false_r.
Qed.

(** The three [CREATE INDEX]es leave the tables alone; on a store that did
    not have it, the unique index is entered last, over rows that do not
    conflict. *)
Lemma run_create_indexes d d' :
  unmigrated d →
  run create_indexes d = Ok d' →
  ∃ tb ixs, db_tables d !! "tasks" = Some tb
    ∧ db_tables d' = db_tables d
    ∧ db_indexes d' = ixs ++ [ux_tasks_parent_phase]
    ∧ index_exists "ux_tasks_parent_phase" (Db (db_tables d) ixs) = false
    ∧ rows_unique ux_tasks_parent_phase (tbl_rows tb) = true.
Proof.
  unfold unmigrated, create_indexes. simpl. intros Hfresh H.
  apply bind_Ok in H as (d1 & H1 & H).
  apply bind_Ok in H as (d2 & H2 & H).
  apply bind_Ok in H as (d3 & H3 & [= <-]).
  pose proof (create_index_other _ _ _ _ _ _ _ "ux_tasks_parent_phase" H1
                ltac:(done)) as E1.
  pose proof (create_index_other _ _ _ _ _ _ _ "ux_tasks_parent_phase" H2
                ltac:(done)) as E2.
  apply create_index_Ok in H1 as (tb & Htb & _ & Ht1 & _).
  apply create_index_Ok in H2 as (_ & _ & _ & Ht2 & _).
  apply create_index_Ok in H3 as (tb' & Htb' & _ & Ht3 & H3).
  destruct H3 as [[H3 _]|(_ & _ & Hu & Hix)]; [congruence|].
  exists tb, (db_indexes d2). rewrite Ht2, Ht1 in Htb'.
  assert (tb' = tb) as -> by congruence.
  split_and!; try done.
  - congruence.
  - change (index_exists "ux_tasks_parent_phase" d2 = false). congruence.
  - by apply Hu.
Qed.
End RunMigration.

(** ** Unique indexes *)

Section Uniqueness.
Import Sqlite.

Lemma conflicts_sym ix r1 r2 : conflicts ix r1 r2 = conflicts ix r2 r1.
Proof.
  unfold conflicts.
  destruct (decide (index_key ix r1 = index_key ix r2)) as [E|N].
  - rewrite E, !bool_decide_eq_true_2 by done.
    by rewrite (andb_comm (in_index ix r1)).
  - rewrite !bool_decide_eq_false_2 by done. by rewrite !andb_false_r.
Qed.

Lemma unique_ok_true ix rows r :
  unique_ok ix rows r = true ↔ ∀ r', r' ∈ rows → conflicts ix r' r = false.
Proof.
  unfold unique_ok. rewrite forallb_forall. split; intros H r' Hr'.
  - apply negb_true_iff, H. by apply list_elem_of_In.
  - apply negb_true_iff, H. by apply list_elem_of_In.
Qed.

Lemma rows_unique_pairwise ix rows :
  rows_unique ix rows = true ↔ pairwise_ok ix rows.
Proof.
  induction rows as [|r rs IH]; simpl.
  - split; [|done]. intros _ i j r1 r2 _ H. by rewrite lookup_nil in H.
  - rewrite andb_true_iff, unique_ok_true, IH. split.
    + intros [Hr Hrs] [|i] [|j] r1 r2 Hij H1 H2; simpl in *;
        simplify_eq.
      * rewrite conflicts_sym. eapply Hr, list_elem_of_lookup_2, H2.
      * eapply Hr, list_elem_of_lookup_2, H1.
      * eapply Hrs; [|done..]. congruence.
    + intros H. split.
      * intros r' (j & Hj)%list_elem_of_lookup.
        by apply (H (S j) 0 r' r).
      * intros i j r1 r2 Hij H1 H2.
        apply (H (S i) (S j)); [congruence|done..].
Qed.

Lemma pairwise_ok_snoc ix rows r :
  pairwise_ok ix rows → unique_ok ix rows r = true →
  pairwise_ok ix (rows ++ [r]).
Proof.
  rewrite unique_ok_true. intros Hrows Hr i j r1 r2 Hij H1 H2.
  apply lookup_snoc_Some in H1 as [[Hi H1]|[-> <-]];
    apply lookup_snoc_Some in H2 as [[Hj H2]|[-> <-]].
  - by apply (Hrows i j).
  - eapply Hr, list_elem_of_lookup_2, H1.
  - rewrite conflicts_sym. eapply Hr, list_elem_of_lookup_2, H2.
  - done.
Qed.

Lemma lookup_delete_Some (rows : list row) i j r :
  delete i rows !! j = Some r →
  ∃ j', j' ≠ i ∧ rows !! j' = Some r
        ∧ ((j < i)%nat → j' = j) ∧ ((i ≤ j)%nat → j' = S j).
Proof.
  intros H. destruct (decide (j < i)%nat).
  - rewrite list_lookup_delete_lt in H by done.
    exists j. split_and!; [lia|done|done|lia].
  - rewrite list_lookup_delete_ge in H by lia.
    exists (S j). split_and!; [lia|done|lia|done].
Qed.

Lemma pairwise_ok_delete ix rows i :
  pairwise_ok ix rows → pairwise_ok ix (delete i rows).
Proof.
  intros Hrows j k r1 r2 Hjk H1 H2.
  apply lookup_delete_Some in H1 as (j' & ? & H1 & ? & ?).
  apply lookup_delete_Some in H2 as (k' & ? & H2 & ? & ?).
  apply (Hrows j' k'); [lia|done..].
Qed.

Lemma elem_of_delete_other (rows : list row) i j r :
  j ≠ i → rows !! j = Some r → r ∈ delete i rows.
Proof.
  intros Hji Hj. destruct (decide (j < i)%nat).
  - apply (list_elem_of_lookup_2 _ j).
    by rewrite list_lookup_delete_lt.
  - apply (list_elem_of_lookup_2 _ (j - 1)).
    rewrite list_lookup_delete_ge by lia. by replace (S (j - 1)) with j by lia.
Qed.

Lemma pairwise_ok_insert ix rows i r :
  pairwise_ok ix rows → unique_ok ix (delete i rows) r = true →
  pairwise_ok ix (<[i := r]> rows).
Proof.
  rewrite unique_ok_true. intros Hrows Hr j k r1 r2 Hjk H1 H2.
  apply list_lookup_insert_Some in H1 as [(-> & <- & Hi)|[Hj H1]];
    apply list_lookup_insert_Some in H2 as [(-> & <- & Hi')|[Hk H2]].
  - done.
  - rewrite conflicts_sym. by eapply Hr, elem_of_delete_other.
  - by eapply Hr, elem_of_delete_other.
  - by apply (Hrows j k).
Qed.

Lemma check_unique_Ok ixs rows r :
  check_unique ixs rows r = Ok () ↔
  ∀ ix, ix ∈ ixs → idx_unique ix = true → unique_ok ix rows r = true.
Proof.
  induction ixs as [|ix ixs IH]; simpl.
  - split; [|done]. intros _ ix H. by apply elem_of_nil in H.
  - destruct (idx_unique ix && negb (unique_ok ix rows r)) eqn:E.
    + apply andb_true_iff in E as [Hu Hn%negb_true_iff]. split; [done|].
      intros H. rewrite H in Hn; [done|left|done].
    + rewrite IH. split.
      * intros H ix' [->|Hin]%elem_of_cons Hu; [|by apply H].
        rewrite Hu in E. by apply negb_false_iff in E.
      * intros H ix' Hin. apply H. by right.
Qed.

(** A failed check names a unique index of the list that the row
    violates. *)
Lemma check_unique_Err ixs rows r e :
  check_unique ixs rows r = Err e →
  ∃ ix, ix ∈ ixs ∧ idx_unique ix = true ∧ unique_ok ix rows r = false
        ∧ e = UniqueViolation (idx_name ix).
Proof.
  induction ixs as [|ix ixs IH]; simpl; [done|].
  destruct (idx_unique ix && negb (unique_ok ix rows r)) eqn:E.
  - apply andb_true_iff in E as [Hu Hn%negb_true_iff].
    intros [= <-]. exists ix. split_and!; [left|done..].
  - intros (ix' & ? & ?)%IH. exists ix'. split; [by right|done].
Qed.

Lemma check_unique_result ixs rows r :
  check_unique ixs rows r = Ok ()
  ∨ ∃ n, check_unique ixs rows r = Err (UniqueViolation n).
Proof.
  destruct (check_unique ixs rows r) as [[]|e] eqn:E; [by left|].
  apply check_unique_Err in E as (ix & _ & _ & _ & ->). eauto.
Qed.

Lemma check_not_null_Ok t cols r :
  check_not_null t cols r = Ok () ↔
  ∀ c, c ∈ cols → col_notnull c = true → is_null (cell r (col_name c)) = false.
Proof.
  induction cols as [|c cols IH]; simpl.
  - split; [|done]. intros _ c H. by apply elem_of_nil in H.
  - destruct (col_notnull c && is_null (cell r (col_name c))) eqn:E.
    + apply andb_true_iff in E as [Hn Hz]. split; [done|].
      intros H. rewrite H in Hz; [done|left|done].
    + rewrite IH. split.
      * intros H c' [->|Hin]%elem_of_cons Hn; [|by apply H].
        by rewrite Hn in E.
      * intros H c' Hin. apply H. by right.
Qed.

Lemma check_not_null_result t cols r :
  check_not_null t cols r = Ok ()
  ∨ ∃ c, check_not_null t cols r = Err (NotNullViolation t c).
Proof.
  induction cols as [|c cols IH]; simpl; [by left|].
  destruct (col_notnull c && _); eauto.
Qed.
End Uniqueness.

(** ** Row-level writes *)

Section Writes.
Import Sqlite.

Lemma elem_of_indexes_of ix t d :
  ix ∈ indexes_of t d ↔ ix ∈ db_indexes d ∧ idx_table ix = t.
Proof. unfold indexes_of. rewrite list_elem_of_filter. tauto. Qed.

Lemma build_row_cons c cols a :
  build_row (c :: cols) a
  = <[col_name c := default (default_value c) (a !! col_name c)]>
      (build_row cols a).
Proof. done. Qed.

(** A column no definition names is absent from the built row. *)
Lemma build_row_lookup_None cols a n :
  Forall (fun c => col_name c ≠ n) cols → build_row cols a !! n = None.
Proof.
  induction 1 as [|c cols Hc _ IH]; [done|].
  rewrite build_row_cons, lookup_insert_ne by done. apply IH.
Qed.

(** The built row holds, for a column, the supplied value or else the
    default of the first definition of that name. *)
Lemma build_row_lookup cols0 c cols a :
  Forall (fun c0 => col_name c0 ≠ col_name c) cols0 →
  build_row (cols0 ++ c :: cols) a !! col_name c
  = Some (default (default_value c) (a !! col_name c)).
Proof.
  induction 1 as [|c0 cols0 Hc0 _ IH]; simpl.
  - by rewrite lookup_insert_eq.
  - rewrite lookup_insert_ne by done. apply IH.
Qed.

Lemma insert_into_Ok t a d d' :
  insert_into t a d = Ok d' ↔
  ∃ tb, db_tables d !! t = Some tb
    ∧ check_columns t tb a = Ok ()
    ∧ check_not_null t (tbl_cols tb) (build_row (tbl_cols tb) a) = Ok ()
    ∧ check_unique (indexes_of t d) (tbl_rows tb)
        (build_row (tbl_cols tb) a) = Ok ()
    ∧ check_fk (set_rows t tb (tbl_rows tb ++ [build_row (tbl_cols tb) a]) d)
        (tbl_cols tb) (build_row (tbl_cols tb) a) = Ok ()
    ∧ d' = set_rows t tb (tbl_rows tb ++ [build_row (tbl_cols tb) a]) d.
Proof.
  unfold insert_into. rewrite bind_Ok. split.
  - intros (tb & Htb%lookup_table_Ok & H). exists tb.
    apply bind_Ok in H as ([] & H1 & H).
    apply bind_Ok in H as ([] & H2 & H).
    apply bind_Ok in H as ([] & H3 & H).
    apply bind_Ok in H as ([] & H4 & [= <-]). done.
  - intros (tb & Htb%lookup_table_Ok & H1 & H2 & H3 & H4 & ->).
    exists tb. split; [done|]. rewrite H1. simpl. rewrite H2. simpl.
    rewrite H3. simpl. by rewrite H4.
Qed.

(** What an accepted write did to the store: nothing, or it replaced the
    rows of one table by rows that keep every unique index of the table
    free of conflicts and every [NOT NULL] column filled. *)
Lemma exec_write_Ok w d d' :
  exec_write w d = Ok d' →
  d' = d
  ∨ ∃ t tb rows',
      db_tables d !! t = Some tb
      ∧ d' = set_rows t tb rows' d
      ∧ (∀ ix, ix ∈ db_indexes d → idx_table ix = t → idx_unique ix = true →
           pairwise_ok ix (tbl_rows tb) → pairwise_ok ix rows')
      ∧ (∀ c, c ∈ tbl_cols tb → col_notnull c = true →
           Forall (fun r => is_null (cell r (col_name c)) = false) (tbl_rows tb) →
           Forall (fun r => is_null (cell r (col_name c)) = false) rows').
Proof.
  destruct w as [t a|t i a|t i]; simpl.
  - intros (tb & Htb & _ & Hnn & Hu & _ & ->)%insert_into_Ok.
    right. exists t, tb, (tbl_rows tb ++ [build_row (tbl_cols tb) a]).
    split_and!; try done.
    + intros ix Hix Ht Hux Hrows. apply pairwise_ok_snoc; [done|].
      eapply check_unique_Ok; [done| |done]. by apply elem_of_indexes_of.
    + intros c Hc Hn Hrows. apply Forall_app. split; [done|].
      apply Forall_singleton. by eapply check_not_null_Ok.
  - unfold update_row. intros H.
    apply bind_Ok in H as (tb & Htb%lookup_table_Ok & H).
    apply bind_Ok in H as ([] & _ & H).
    destruct (tbl_rows tb !! i) as [old|] eqn:Hi; [|injection H as <-; by left].
    apply bind_Ok in H as ([] & Hnn & H).
    apply bind_Ok in H as ([] & Hu & H).
    apply bind_Ok in H as ([] & _ & [= <-]).
    right. exists t, tb, (<[i := a ∪ old]> (tbl_rows tb)).
    split_and!; try done.
    + intros ix Hix Ht Hux Hrows. apply pairwise_ok_insert; [done|].
      eapply check_unique_Ok; [done| |done]. by apply elem_of_indexes_of.
    + intros c Hc Hn Hrows. apply Forall_insert; [done|].
      by eapply check_not_null_Ok.
  - unfold delete_row. intros H.
    apply bind_Ok in H as (tb & Htb%lookup_table_Ok & H).
    destruct (tbl_rows tb !! i) as [old|] eqn:Hi; [|injection H as <-; by left].
    apply bind_Ok in H as ([] & _ & [= <-]).
    right. exists t, tb, (delete i (tbl_rows tb)).
    split_and!; try done.
    + intros ix _ _ _ Hrows. by apply pairwise_ok_delete.
    + intros c _ _ Hrows. by apply Forall_delete.
Qed.

Lemma apply_write_cases d w :
  apply_write d w = d ∨ exec_write w d = Ok (apply_write d w).
Proof. unfold apply_write. destruct (exec_write w d); eauto. Qed.

(** Writes never touch the schema. *)
Lemma apply_write_schema d w :
  db_indexes (apply_write d w) = db_indexes d
  ∧ ∀ t, column_names t (apply_write d w) = column_names t d.
Proof.
  destruct (apply_write_cases d w) as [->|H]; [done|].
  apply exec_write_Ok in H as [->|(t & tb & rows' & Htb & -> & _)]; [done|].
  split; [done|]. intros t'. unfold column_names, set_rows. simpl.
  destruct (decide (t = t')) as [<-|Hne].
  - by rewrite lookup_insert_eq, Htb.
  - by rewrite lookup_insert_ne.
Qed.

Lemma apply_writes_schema ws d :
  db_indexes (apply_writes ws d) = db_indexes d
  ∧ ∀ t, column_names t (apply_writes ws d) = column_names t d.
Proof.
  revert d. induction ws as [|w ws IH]; intros d; [done|].
  unfold apply_writes in *. simpl.
  destruct (IH (apply_write d w)) as [-> H].
  destruct (apply_write_schema d w) as [-> H']. split; [done|].
  intros t. by rewrite H, H'.
Qed.

(** Writes neither create nor drop a table. *)
Lemma apply_write_tables d w n :
  is_Some (db_tables (apply_write d w) !! n) ↔ is_Some (db_tables d !! n).
Proof.
  destruct (apply_write_cases d w) as [->|H]; [done|].
  apply exec_write_Ok in H as [->|(t & tb & rows' & Htb & -> & _)]; [done|].
  unfold set_rows. simpl. destruct (decide (t = n)) as [<-|Hne].
  - rewrite lookup_insert_eq, Htb. split; eauto.
  - by rewrite lookup_insert_ne.
Qed.

Lemma apply_writes_tables ws d n :
  is_Some (db_tables (apply_writes ws d) !! n) ↔ is_Some (db_tables d !! n).
Proof.
  revert d. induction ws as [|w ws IH]; intros d; [done|].
  unfold apply_writes in *. simpl. by rewrite IH, apply_write_tables.
Qed.
End Writes.

(** ** Stores the migration has been applied to *)

Section Migrated.
Import Sqlite Migration.

Lemma run_create_indexes_tables d d' :
  run create_indexes d = Ok d' → db_tables d' = db_tables d.
Proof.
  unfold create_indexes. simpl. intros H.
  apply bind_Ok in H as (d1 & H1 & H).
  apply bind_Ok in H as (d2 & H2 & H).
  apply bind_Ok in H as (d3 & H3 & [= <-]).
  apply create_index_Ok in H1 as (_ & _ & _ & E1 & _).
  apply create_index_Ok in H2 as (_ & _ & _ & E2 & _).
  apply create_index_Ok in H3 as (_ & _ & _ & E3 & _).
  congruence.
Qed.

Lemma cell_insert_eq (r : row) c v : cell (<[c := v]> r) c = v.
Proof. unfold cell. by rewrite lookup_insert_eq. Qed.

Lemma cell_insert_ne (r : row) c c' v :
  c ≠ c' → cell (<[c := v]> r) c' = cell r c'.
Proof. intros. unfold cell. by rewrite lookup_insert_ne. Qed.

Lemma run_migration_columns d0 d1 :
  run migration d0 = Ok d1 → columns_added d1.
Proof.
  unfold migration. rewrite run_app. intros (d & Hc & Hi)%bind_Ok.
  apply run_add_columns in Hc as (tb0 & Htb0 & Hnames & Htbs & _).
  apply run_create_indexes_tables in Hi. unfold columns_added.
  rewrite Hi, Htbs, lookup_insert_eq.
  eexists. split; [done|]. split; simpl.
  - eauto.
  - apply Forall_map, Forall_true. intros r. simpl.
    rewrite 2!cell_insert_ne by done. by rewrite cell_insert_eq.
Qed.

Lemma run_migration_index d0 d1 :
  unmigrated d0 → run migration d0 = Ok d1 → phase_indexed d1.
Proof.
  unfold migration. rewrite run_app. intros Hf (d & Hc & Hi)%bind_Ok.
  apply run_add_columns in Hc as (tb0 & Htb0 & Hnames & Htbs & Hixs).
  apply run_create_indexes in Hi as (tb & ixs & Htb & Ht & Hix & Hno & Hu);
    [|unfold unmigrated, index_exists in *; by rewrite Hixs].
  split_and!.
  - rewrite Hix. set_solver.
  - intros ix. rewrite Hix. intros [Hin|Hin]%elem_of_app Hn;
      [|by apply list_elem_of_singleton in Hin].
    assert (index_exists "ux_tasks_parent_phase" (Db (db_tables d) ixs) = true)
      as E by (apply index_exists_true; eauto).
    congruence.
  - intros tb'. rewrite Ht, Htb. intros [= <-].
    by apply rows_unique_pairwise.
Qed.

Lemma columns_added_apply_write d w :
  columns_added d → columns_added (apply_write d w).
Proof.
  intros (tb & Htb & Hcols & Htrack).
  destruct (apply_write_cases d w) as [->|H]; [by exists tb|].
  apply exec_write_Ok in H as [->|(t & tb' & rows' & Htb' & -> & _ & Hnn)];
    [by exists tb|].
  unfold columns_added, set_rows. simpl.
  destruct (decide (t = "tasks")) as [->|Hne].
  - rewrite lookup_insert_eq. eexists. split; [done|].
    assert (tb' = tb) as -> by congruence. split; [done|]. simpl.
    destruct Hcols as (cols0 & Hcols & _).
    apply (Hnn track); [|done..]. rewrite Hcols. set_solver.
  - rewrite lookup_insert_ne by done. by exists tb.
Qed.

Lemma phase_indexed_apply_write d w :
  phase_indexed d → phase_indexed (apply_write d w).
Proof.
  intros (Hin & Hname & Hrows).
  destruct (apply_write_cases d w) as [->|H]; [done|].
  apply exec_write_Ok in H as [->|(t & tb' & rows' & Htb' & -> & Hu & _)];
    [done|].
  split_and!; [done..|]. unfold set_rows. simpl. intros tb.
  destruct (decide (t = "tasks")) as [->|Hne].
  - rewrite lookup_insert_eq. intros [= <-]. simpl.
    apply Hu; [done..|]. by apply Hrows.
  - rewrite lookup_insert_ne by done. apply Hrows.
Qed.

Lemma columns_added_apply_writes ws d :
  columns_added d → columns_added (apply_writes ws d).
Proof.
  revert d. induction ws as [|w ws IH]; intros d Hd; [done|].
  by apply IH, columns_added_apply_write.
Qed.

Lemma phase_indexed_apply_writes ws d :
  phase_indexed d → phase_indexed (apply_writes ws d).
Proof.
  revert d. induction ws as [|w ws IH]; intros d Hd; [done|].
  by apply IH, phase_indexed_apply_write.
Qed.

Lemma is_null_false v : is_null v = false ↔ v ≠ VNull.
Proof. by destruct v. Qed.

(** On the unique index of the migration, two rows conflict exactly when
    they name the same phase slot. *)
Lemma conflicts_ux r1 r2 :
  conflicts ux_tasks_parent_phase r1 r2 = true ↔ same_phase_slot r1 r2.
Proof.
  unfold conflicts, same_phase_slot, in_index, index_key. simpl.
  rewrite !andb_true_iff, !negb_true_iff, bool_decide_eq_true.
  rewrite !is_null_false. split.
  - intros [[[[Hp Hk] _] _] [= Ep Ek]]. done.
  - intros (Hp & Hk & Ep & Ek). rewrite <- Ep, <- Ek. done.
Qed.

(** What a write to a table with the workflow columns stores in them. *)
Lemma build_row_workflow tb a :
  workflow_columns tb →
  build_row (tbl_cols tb) a !! "track"
  = Some (default (VText "quick") (a !! "track"))
  ∧ cell (build_row (tbl_cols tb) a) "parent_task_id" = cell a "parent_task_id"
  ∧ cell (build_row (tbl_cols tb) a) "phase_key" = cell a "phase_key".
Proof.
  intros [(cols0 & -> & Hnames) _].
  assert (∀ n, n ∈ ["track"; "parent_task_id"; "phase_key"] →
               Forall (fun c => col_name c ≠ n) cols0) as Hn.
  { intros n Hin. eapply Forall_impl; [done|]. simpl. congruence. }
  split_and!.
  - apply (build_row_lookup cols0 track). apply Hn. set_solver.
  - unfold cell.
    replace (cols0 ++ [track; parent_task_id; phase_key])
      with ((cols0 ++ [track]) ++ parent_task_id :: [phase_key])
      by by rewrite <- app_assoc.
    rewrite (build_row_lookup _ parent_task_id); simpl.
    + by destruct (a !! "parent_task_id").
    + apply Forall_app. split; [apply Hn; set_solver|].
      by apply Forall_singleton.
  - unfold cell.
    replace (cols0 ++ [track; parent_task_id; phase_key])
      with ((cols0 ++ [track; parent_task_id]) ++ phase_key :: [])
      by by rewrite <- app_assoc.
    rewrite (build_row_lookup _ phase_key); simpl.
    + by destruct (a !! "phase_key").
    + apply Forall_app. split; [apply Hn; set_solver|].
      by repeat constructor.
Qed.

(** The migration keeps the rows that were stored, each with the defaults
of the three columns. *)
Lemma run_migration_rows d0 d1 :
  run migration d0 = Ok d1 →
  ∃ tb0, db_tables d0 !! "tasks" = Some tb0
    ∧ select_all "tasks" d1
      = (fun r => <["phase_key" := VNull]>
                    (<["parent_task_id" := VNull]>
                       (<["track" := VText "quick"]> r))) <$> tbl_rows tb0.
Proof.
  unfold migration. rewrite run_app. intros (d & Hc & Hi)%bind_Ok.
  apply run_add_columns in Hc as (tb0 & Htb0 & _ & Htbs & _).
  apply run_create_indexes_tables in Hi. exists tb0. split; [done|].
  unfold select_all. by rewrite Hi, Htbs, lookup_insert_eq.
Qed.

(** After the three [CREATE INDEX]es the table is there, and each index
name is in the schema and is not the name of a table. *)
Lemma run_create_indexes_names d d' :
  run create_indexes d = Ok d' →
  is_Some (db_tables d' !! "tasks")
  ∧ Forall (fun n => db_tables d' !! n = None ∧ index_exists n d' = true)
      ["idx_tasks_parent_task_id"; "idx_tasks_track"; "ux_tasks_parent_phase"].
Proof.
  unfold create_indexes. simpl. intros H.
  apply bind_Ok in H as (d1 & H1 & H).
  apply bind_Ok in H as (d2 & H2 & H).
  apply bind_Ok in H as (d3 & H3 & [= <-]).
  pose proof (create_index_index_exists _ _ _ _ _ _ _ H1) as X1.
  pose proof (create_index_index_exists _ _ _ _ _ _ _ H2) as X2.
  pose proof (create_index_index_exists _ _ _ _ _ _ _ H3) as X3.
  eapply create_index_preserves_exists in X1; [|exact H2].
  eapply create_index_preserves_exists in X1; [|exact H3].
  eapply create_index_preserves_exists in X2; [|exact H3].
  apply create_index_Ok in H1 as (tb & Htb & N1 & E1 & _).
  apply create_index_Ok in H2 as (_ & _ & N2 & E2 & _).
  apply create_index_Ok in H3 as (_ & _ & N3 & E3 & _).
  rewrite E3, E2, E1. split; [by eexists|].
  repeat constructor; try done; congruence.
Qed.
End Migrated.

(** ** Inserting into a migrated store *)

Section Inserts.
Import Sqlite Migration.

Lemma find_None {A} (f : A → bool) (l : list A) :
  find f l = None ↔ ∀ x, x ∈ l → f x = false.
Proof.
  induction l as [|y l IH]; simpl.
  - split; [|done]. intros _ x H. by apply elem_of_nil in H.
  - destruct (f y) eqn:E.
    + split; [done|]. intros H. rewrite H in E; [done|left].
    + rewrite IH. split.
      * by intros H x [->|?]%elem_of_cons; [|apply H].
      * intros H x Hx. apply H. by right.
Qed.

(** The column check passes when every supplied column is one of the
    table. *)
Lemma check_columns_Ok t tb a :
  check_columns t tb a = Ok () ↔ ∀ c, is_Some (a !! c) → has_column c tb = true.
Proof.
  unfold check_columns, missing_column.
  destruct (find _ _) as [c|] eqn:E.
  - split; [done|]. intros H. apply find_some in E as [Hin Hc].
    apply list_elem_of_In, list_elem_of_fmap in Hin as ([c' v] & -> & Hin).
    apply elem_of_map_to_list in Hin. simpl in Hc.
    rewrite H in Hc; [done|by eexists].
  - split; [|done]. intros _ c [v Hv].
    rewrite find_None in E. apply negb_false_iff, E.
    apply list_elem_of_fmap. exists (c, v). split; [done|].
    by apply elem_of_map_to_list.
Qed.

Lemma has_column_names t d tb c :
  db_tables d !! t = Some tb →
  c ∈ column_names t d → has_column c tb = true.
Proof.
  unfold column_names. intros ->.
  intros (cd & -> & Hcd)%list_elem_of_fmap. apply has_column_true. eauto.
Qed.

(** A row that another stored row conflicts with on a unique index of the
    table is rejected, by that index or by a check that comes before. *)
Lemma insert_into_conflict t a d tb ix r' :
  db_tables d !! t = Some tb →
  (∀ c, is_Some (a !! c) → c ∈ column_names t d) →
  ix ∈ db_indexes d → idx_table ix = t → idx_unique ix = true →
  r' ∈ tbl_rows tb →
  conflicts ix r' (build_row (tbl_cols tb) a) = true →
  ∃ e, insert_into t a d = Err e ∧ is_constraint_violation e = true.
Proof.
  intros Htb Hcols Hix Ht Hu Hr' Hc. unfold insert_into, lookup_table.
  rewrite Htb. simpl.
  rewrite (proj2 (check_columns_Ok t tb a))
    by (intros c Hc'; eapply has_column_names; eauto).
  simpl.
  destruct (check_not_null_result t (tbl_cols tb) (build_row (tbl_cols tb) a))
    as [->|[c ->]]; simpl; [|eauto].
  destruct (check_unique_result (indexes_of t d) (tbl_rows tb)
              (build_row (tbl_cols tb) a)) as [E|[n ->]]; simpl; [|eauto].
  rewrite check_unique_Ok in E.
  specialize (E ix ltac:(by apply elem_of_indexes_of) Hu).
  rewrite unique_ok_true in E. rewrite (E r' Hr') in Hc. done.
Qed.

Lemma same_phase_slot_build_row tb r1 a :
  workflow_columns tb →
  same_phase_slot r1 a → same_phase_slot r1 (build_row (tbl_cols tb) a).
Proof.
  intros (_ & Hp & Hk)%(build_row_workflow tb a).
  unfold same_phase_slot. by rewrite Hp, Hk.
Qed.

(** Foreign keys are looked up in the tables alone. *)
Lemma check_fk_tables d d' cols r :
  db_tables d = db_tables d' → check_fk d cols r = check_fk d' cols r.
Proof.
  intros E. unfold check_fk, fk_ok, parent_exists. by rewrite E.
Qed.

Lemma indexes_of_drop_index t n d :
  indexes_of t (drop_index n d)
  = filter (fun ix => idx_name ix ≠ n) (indexes_of t d).
Proof.
  unfold indexes_of, drop_index. simpl. rewrite !list_filter_filter.
  apply list_filter_iff. tauto.
Qed.

(** Indexes that the row does not violate can be left out of the check. *)
Lemma check_unique_filter (P : index_def → Prop) `{∀ ix, Decision (P ix)}
    ixs rows r :
  (∀ ix, ix ∈ ixs → ¬ P ix → idx_unique ix = true →
         unique_ok ix rows r = true) →
  check_unique (filter P ixs) rows r = check_unique ixs rows r.
Proof.
  induction ixs as [|ix ixs IH]; intros Hok; [done|].
  rewrite filter_cons. simpl.
  assert (check_unique (filter P ixs) rows r = check_unique ixs rows r) as E.
  { apply IH. intros ix' Hin. apply Hok. by right. }
  destruct (decide (P ix)) as [HP|HP]; simpl; [by rewrite E|].
  destruct (idx_unique ix) eqn:Hu; simpl; [|done].
  rewrite (Hok ix) by (done || left). done.
Qed.

(** A row without a parent or without a phase conflicts with nothing on
the unique index of the migration. *)
Lemma unique_ok_unphased tb a rows :
  workflow_columns tb →
  unphased a →
  unique_ok ux_tasks_parent_phase rows (build_row (tbl_cols tb) a) = true.
Proof.
  intros Hcols Hnull. apply unique_ok_true. intros r' _.
  apply not_true_is_false. intros (Hp & Hk & Ep & Ek)%conflicts_ux.
  destruct (build_row_workflow tb a Hcols) as (_ & Hp' & Hk').
  rewrite Ep, Hp' in Hp. rewrite Ek, Hk' in Hk. by destruct Hnull.
Qed.

Lemma set_rows_drop_index t tb rows n d :
  set_rows t tb rows (drop_index n d) = drop_index n (set_rows t tb rows d).
Proof. done. Qed.

(** Without the unique index of the migration, the insert of a task that
claims no slot has the same result. *)
Lemma insert_unphased_drop d a :
  columns_added d → phase_indexed d → unphased a →
  insert_into "tasks" a (drop_index "ux_tasks_parent_phase" d)
  = drop_index "ux_tasks_parent_phase" <$> insert_into "tasks" a d.
Proof.
  intros (tb & Htb & Hcols) (_ & Hname & _) Hnull.
  unfold insert_into, lookup_table. simpl. rewrite Htb. simpl.
  destruct (check_columns "tasks" tb a) as [[]|]; simpl; [|done].
  destruct (check_not_null _ _ _) as [[]|]; simpl; [|done].
  rewrite indexes_of_drop_index, check_unique_filter.
  2:{ intros ix [Hin _]%elem_of_indexes_of Hn%dec_stable _.
      rewrite (Hname ix Hin Hn). by apply unique_ok_unphased. }
  destruct (check_unique _ _ _) as [[]|]; simpl; [|done].
  rewrite set_rows_drop_index.
  rewrite (check_fk_tables (drop_index _ _)
             (set_rows "tasks" tb
                (tbl_rows tb ++ [build_row (tbl_cols tb) a]) d)) by done.
  by destruct (check_fk _ _ _) as [[]|].
Qed.

(** An insert that fails on a unique index fails on an index of the table
that the new row violates. *)
Lemma insert_into_unique_violation t a d n :
  insert_into t a d = Err (UniqueViolation n) →
  ∃ tb ix, db_tables d !! t = Some tb
    ∧ ix ∈ indexes_of t d ∧ idx_name ix = n ∧ idx_unique ix = true
    ∧ unique_ok ix (tbl_rows tb) (build_row (tbl_cols tb) a) = false.
Proof.
  unfold insert_into, lookup_table. intros H.
  destruct (db_tables d !! t) as [tb|]; simpl in H; [|done].
  apply bind_Err in H as [H|([] & _ & H)].
  { unfold check_columns in H. by destruct (missing_column _ _). }
  apply bind_Err in H as [H|([] & _ & H)].
  { by destruct (check_not_null_result t (tbl_cols tb)
                   (build_row (tbl_cols tb) a)) as [E|[c E]]; rewrite E in H. }
  apply bind_Err in H as [H|([] & _ & H)].
  - apply check_unique_Err in H as (ix & Hin & Hu & Hbad & [= ->]).
    by exists tb, ix.
  - apply bind_Err in H as [H|([] & _ & H)]; [|done].
    unfold check_fk in H. by destruct (forallb _ _).
Qed.

Lemma insert_unphased_no_violation d a :
  columns_added d → phase_indexed d → unphased a →
  insert_into "tasks" a d ≠ Err (UniqueViolation "ux_tasks_parent_phase").
Proof.
  intros (tb & Htb & Hcols) (_ & Hname & _) Hnull.
  intros (tb' & ix & Htb' & [Hin _]%elem_of_indexes_of & Hn & _ & Hbad)
           %insert_into_unique_violation.
  assert (tb' = tb) as -> by congruence.
  rewrite (Hname ix Hin Hn) in Hbad.
  by rewrite unique_ok_unphased in Hbad.
Qed.
End Inserts.

(** * The claims about the store *)

Section StoreClaims.
Import Sqlite Migration.

(** C1. In every store reached by writes after the migration, two rows of
  [tasks] that hold the same non-NULL [parent_task_id] and the same
  non-NULL [phase_key] are one and the same row; and while such a row is
  stored, inserting another one for its slot is rejected with a
  constraint violation and leaves the store unchanged. *)
Theorem parent_phase_unique d0 d1 ws :
  unmigrated d0 →
  run migration d0 = Ok d1 →
  let d := apply_writes ws d1 in
  (∀ i j r1 r2,
      select_all "tasks" d !! i = Some r1 →
      select_all "tasks" d !! j = Some r2 →
      same_phase_slot r1 r2 → i = j)
  ∧ (∀ r1 a,
        r1 ∈ select_all "tasks" d →
        same_phase_slot r1 a →
        (∀ c, is_Some (a !! c) → c ∈ column_names "tasks" d) →
        (∃ e, insert_into "tasks" a d = Err e
              ∧ is_constraint_violation e = true)
        ∧ apply_write d (Insert "tasks" a) = d).
Proof.
  intros Hfresh Hrun d.
  assert (columns_added d) as (tb & Htb & Hcols)
    by by eapply columns_added_apply_writes, run_migration_columns.
  assert (phase_indexed d) as (Hin & _ & Hrows)
    by by eapply phase_indexed_apply_writes, run_migration_index.
  specialize (Hrows tb Htb). unfold select_all. rewrite Htb. split.
  - intros i j r1 r2 H1 H2 Hs%conflicts_ux.
    destruct (decide (i = j)) as [|Hij]; [done|].
    by rewrite (Hrows i j r1 r2 Hij H1 H2) in Hs.
  - intros r1 a Hr1 Hs Ha.
    assert (∃ e, insert_into "tasks" a d = Err e
                 ∧ is_constraint_violation e = true) as (e & He & Hv).
    { eapply (insert_into_conflict _ _ _ tb ux_tasks_parent_phase r1);
        try done.
      by apply conflicts_ux, same_phase_slot_build_row. }
    split; [eauto|]. unfold apply_write. simpl. by rewrite He.
Qed.

Lemma parent_phase_unique_witness :
  unmigrated Example.base
  ∧ run migration Example.base = Ok Example.migrated
  ∧ let d := apply_writes Example.family Example.migrated in
    (∀ i j r1 r2,
        select_all "tasks" d !! i = Some r1 →
        select_all "tasks" d !! j = Some r2 →
        same_phase_slot r1 r2 → i = j)
    ∧ (∀ r1 a,
          r1 ∈ select_all "tasks" d →
          same_phase_slot r1 a →
          (∀ c, is_Some (a !! c) → c ∈ column_names "tasks" d) →
          (∃ e, insert_into "tasks" a d = Err e
                ∧ is_constraint_violation e = true)
          ∧ apply_write d (Insert "tasks" a) = d).
Proof.
  split; [reflexivity|]. split; [vm_compute; reflexivity|].
  apply (parent_phase_unique Example.base Example.migrated Example.family).
  - reflexivity.
  - vm_compute; reflexivity.
Defined.

(** C6. On a store the migration has been applied to, whatever was written
since, running the three [CREATE INDEX IF NOT EXISTS] statements again
succeeds and returns the store as it was. *)
Theorem create_indexes_idempotent d0 d1 ws :
  run migration d0 = Ok d1 →
  let d := apply_writes ws d1 in
  run create_indexes d = Ok d.
Proof.
  intros Hrun d. unfold migration in Hrun. rewrite run_app in Hrun.
  apply bind_Ok in Hrun as (dc & _ & Hi).
  apply run_create_indexes_names in Hi as [Htasks Hnames].
  assert (is_Some (db_tables d !! "tasks")) as [tb Htb]
    by by apply apply_writes_tables.
  assert (∀ n, db_tables d1 !! n = None ∧ index_exists n d1 = true →
               ∀ u cols w, create_index u true n "tasks" cols w d = Ok d) as Hno.
  { intros n [Hn Hx] u cols w. apply (create_index_exists _ _ _ _ _ _ tb Htb).
    - apply eq_None_not_Some. unfold d.
      rewrite apply_writes_tables, Hn. by intros [? ?].
    - unfold d, index_exists in *.
      by rewrite (proj1 (apply_writes_schema ws d1)). }
  apply Forall_cons in Hnames as [H1 Hnames].
  apply Forall_cons in Hnames as [H2 Hnames].
  apply Forall_cons in Hnames as [H3 _].
  unfold create_indexes. simpl.
  rewrite (Hno _ H1). simpl. rewrite (Hno _ H2). simpl. by rewrite (Hno _ H3).
Qed.

Lemma create_indexes_idempotent_witness :
  run migration Example.base = Ok Example.migrated
  ∧ let d := apply_writes Example.family Example.migrated in
    run create_indexes d = Ok d.
Proof.
  split; [vm_compute; reflexivity|].
  apply (create_indexes_idempotent Example.base Example.migrated Example.family).
  vm_compute; reflexivity.
Defined.

(** C7. On a store the migration has been applied to, whatever was written
since, each of the three [ALTER TABLE ... ADD COLUMN] statements fails
with a duplicate-column error, and so does the migration run again, at
its first statement; the error is not a constraint violation. *)
Theorem add_columns_not_idempotent d0 d1 ws :
  run migration d0 = Ok d1 →
  let d := apply_writes ws d1 in
  exec (AlterTableAddColumn "tasks" track) d = Err (DuplicateColumn "track")
  ∧ exec (AlterTableAddColumn "tasks" parent_task_id) d
    = Err (DuplicateColumn "parent_task_id")
  ∧ exec (AlterTableAddColumn "tasks" phase_key) d
    = Err (DuplicateColumn "phase_key")
  ∧ run migration d = Err (DuplicateColumn "track")
  ∧ is_constraint_violation (DuplicateColumn "track") = false.
Proof.
  intros Hrun d.
  assert (columns_added d) as (tb & Htb & (cols0 & Hcols & _) & _)
    by by eapply columns_added_apply_writes, run_migration_columns.
  assert (∀ c, c ∈ [track; parent_task_id; phase_key] →
               exec (AlterTableAddColumn "tasks" c) d
               = Err (DuplicateColumn (col_name c))) as H.
  { intros c Hc. apply (alter_table_add_column_duplicate _ _ _ tb Htb).
    apply has_column_true. exists c. split; [|done].
    rewrite Hcols. apply elem_of_app. by right. }
  split_and!; try (apply H; set_solver); try done.
  unfold migration, add_columns. simpl.
  change (alter_table_add_column "tasks" track d)
    with (exec (AlterTableAddColumn "tasks" track) d).
  rewrite H by set_solver. done.
Qed.

Lemma add_columns_not_idempotent_witness :
  run migration Example.base = Ok Example.migrated
  ∧ let d := apply_writes Example.family Example.migrated in
    exec (AlterTableAddColumn "tasks" track) d = Err (DuplicateColumn "track")
    ∧ exec (AlterTableAddColumn "tasks" parent_task_id) d
      = Err (DuplicateColumn "parent_task_id")
    ∧ exec (AlterTableAddColumn "tasks" phase_key) d
      = Err (DuplicateColumn "phase_key")
    ∧ run migration d = Err (DuplicateColumn "track")
    ∧ is_constraint_violation (DuplicateColumn "track") = false.
Proof.
  split; [vm_compute; reflexivity|].
  apply (add_columns_not_idempotent Example.base Example.migrated Example.family).
  vm_compute; reflexivity.
Defined.
End StoreClaims.

(** * Concurrent inserts for one phase slot *)

Section Concurrency.
Import Sqlite Migration Writers.

Variables (d : db) (p k : value) (reqs : list row).
Hypothesis Hcols : columns_added d.
Hypothesis Hix : phase_indexed d.
Hypothesis Hp : p ≠ VNull.
Hypothesis Hk : k ≠ VNull.
Hypothesis Hreqs : ∀ a, a ∈ reqs →
  cell a "parent_task_id" = p ∧ cell a "phase_key" = k
  ∧ is_ok (insert_into "tasks" a d) = true.

Lemma race_inv_init :
  race_inv d p k reqs (System d (Insert "tasks" <$> reqs) []).
Proof.
  split_and!; simpl.
  - intros w (a & -> & Ha)%list_elem_of_fmap. eauto.
  - by rewrite length_fmap.
  - by left.
Qed.

Lemma successes_snoc log o :
  successes (log ++ [o]) = successes log + (if is_ok o then 1 else 0).
Proof.
  unfold successes. rewrite filter_app, length_app. f_equal.
  rewrite filter_cons, filter_nil. by destruct (is_ok o).
Qed.

Lemma race_inv_step s s' :
  race_inv d p k reqs s → step s s' → race_inv d p k reqs s'.
Proof.
  intros (Hpend & Hlen & Hst) Hstep.
  destruct Hstep as [d' ws1 w ws2 log]. simpl in *.
  destruct (Hpend w) as (a & -> & Ha); [apply elem_of_app; right; left|].
  destruct (Hreqs a Ha) as (Hpa & Hka & Hok).
  split_and!; simpl.
  - intros w [Hw|Hw]%elem_of_app; apply Hpend, elem_of_app;
      [by left|by right; right].
  - rewrite !length_app in *. simpl in *. lia.
  - right. destruct Hst as [[-> ->]|(Hc & Hi & Hn & (r & Hr & Hrp & Hrk) & Hs & He)].
    + unfold outcome, apply_write. simpl.
      destruct (insert_into "tasks" a d) as [d'|] eqn:E; [|done].
      assert (apply_write d (Insert "tasks" a) = d') as Hd'
        by (unfold apply_write; simpl; by rewrite E).
      split_and!.
      * rewrite <- Hd'. by apply columns_added_apply_write.
      * rewrite <- Hd'. by apply phase_indexed_apply_write.
      * rewrite <- Hd'. apply apply_write_schema.
      * apply insert_into_Ok in E as (tb & Htb & _ & _ & _ & _ & ->).
        destruct Hcols as (tb' & Htb' & Hw).
        assert (tb' = tb) as -> by congruence.
        exists (build_row (tbl_cols tb) a).
        destruct (build_row_workflow tb a Hw) as (_ & -> & ->).
        split; [|done]. unfold select_all, set_rows. simpl.
        rewrite lookup_insert_eq. simpl. apply elem_of_app. right. left.
      * done.
      * intros e. simpl. by intros [=]%list_elem_of_singleton.
    + destruct Hc as (tb & Htb & Hw).
      assert (∃ e, insert_into "tasks" a d' = Err e
                   ∧ is_constraint_violation e = true) as (e & He' & Hv).
      { destruct Hi as (Hin & _ & _).
        eapply (insert_into_conflict _ _ _ tb ux_tasks_parent_phase r);
          try done.
        - intros c Hc. rewrite Hn.
          destruct (insert_into "tasks" a d) as [d0|] eqn:E; [|done].
          apply insert_into_Ok in E as (tb0 & Htb0 & Hcc & _).
          unfold column_names. rewrite Htb0. apply list_elem_of_fmap.
          apply (proj1 (check_columns_Ok _ _ _) Hcc), has_column_true in Hc
            as (cd & ? & <-). eauto.
        - unfold select_all in Hr. by rewrite Htb in Hr.
        - apply conflicts_ux, same_phase_slot_build_row; [done|].
          unfold same_phase_slot. by rewrite Hrp, Hrk, Hpa, Hka. }
      unfold outcome, apply_write. simpl. rewrite He'. simpl.
      split_and!; try done; try by exists tb.
      * eauto.
      * rewrite successes_snoc. simpl. lia.
      * intros e' [Hin|Hin]%elem_of_app; [by apply He|].
        apply list_elem_of_singleton in Hin. congruence.
Qed.
End Concurrency.

Section ConcurrencyClaim.
Import Sqlite Migration Writers.

(** Every run can be carried to its end: a pending writer can always take
its turn, and each turn retires one writer. *)
Lemma run_completes s : ∃ s', rtc step s s' ∧ pending s' = [].
Proof.
  destruct s as [d ws log]. revert d log.
  induction ws as [|w ws IH]; intros d log.
  - eexists. split; [apply rtc_refl|done].
  - destruct (IH (apply_write d w) (log ++ [outcome w d])) as (s' & Hrun & Hend).
    exists s'. split; [|done]. eapply rtc_l; [|exact Hrun].
    apply (step_writer d [] w ws log).
Qed.

Lemma successes_failures log :
  successes log + length (filter (fun o => is_ok o = false) log) = length log.
Proof.
  unfold successes. induction log as [|o log IH]; [done|].
  rewrite !filter_cons. destruct o; simpl in *; lia.
Qed.

(** C3. Writers that concurrently insert a task for the same phase slot,
a non-NULL parent and a non-NULL phase that no stored row holds yet, each
with a row the store would accept if it came first: every order in which
the engine serves them runs to its end, and at the end exactly one insert
has succeeded and each of the others has failed with a constraint
violation. *)
Theorem concurrent_inserts_one_winner d0 d1 ws p k reqs :
  unmigrated d0 →
  run migration d0 = Ok d1 →
  let d := apply_writes ws d1 in
  let init := System d (Insert "tasks" <$> reqs) [] in
  p ≠ VNull → k ≠ VNull → reqs ≠ [] →
  Forall (fun a => cell a "parent_task_id" = p ∧ cell a "phase_key" = k
                   ∧ is_ok (insert_into "tasks" a d) = true) reqs →
  (∃ s', rtc step init s' ∧ pending s' = [])
  ∧ ∀ s', rtc step init s' → pending s' = [] →
      length (outcomes s') = length reqs
      ∧ successes (outcomes s') = 1
      ∧ length (filter (fun o => is_ok o = false) (outcomes s'))
        = length reqs - 1
      ∧ ∀ e, Err e ∈ outcomes s' → is_constraint_violation e = true.
Proof.
  intros Hfresh Hrun d init Hp Hk Hne Hreqs. split; [apply run_completes|].
  assert (columns_added d) as Hcols
    by by eapply columns_added_apply_writes, run_migration_columns.
  assert (phase_indexed d) as Hix
    by by eapply phase_indexed_apply_writes, run_migration_index.
  rewrite Forall_forall in Hreqs.
  intros s' Hrun' Hend.
  assert (race_inv d p k reqs s') as (_ & Hlen & Hst).
  { eapply (rtc_ind_r (race_inv d p k reqs)); [| |exact Hrun'].
    - by apply race_inv_init.
    - intros s1 s2 _ Hstep Hinv. by eapply race_inv_step. }
  rewrite Hend in Hlen. simpl in Hlen. rewrite Nat.add_0_r in Hlen.
  destruct Hst as [[_ Hnil]|(_ & _ & _ & _ & Hone & Herr)].
  { rewrite Hnil in Hlen. by destruct reqs. }
  split_and!; try done.
  rewrite <- Hlen, <- (successes_failures (outcomes s')), Hone. lia.
Qed.

Lemma concurrent_inserts_one_winner_witness :
  let d := apply_writes [Insert "tasks" (Example.task x01 "A")] Example.migrated in
  let init := System d (Insert "tasks" <$> Example.rivals) [] in
  (∃ s', rtc step init s' ∧ pending s' = [])
  ∧ ∀ s', rtc step init s' → pending s' = [] →
      length (outcomes s') = length Example.rivals
      ∧ successes (outcomes s') = 1
      ∧ length (filter (fun o => is_ok o = false) (outcomes s'))
        = length Example.rivals - 1
      ∧ ∀ e, Err e ∈ outcomes s' → is_constraint_violation e = true.
Proof.
  apply (concurrent_inserts_one_winner Example.base Example.migrated
           [Insert "tasks" (Example.task x01 "A")]
           (Example.uuid x01) (VText "design") Example.rivals).
  - reflexivity.
  - vm_compute; reflexivity.
  - discriminate.
  - discriminate.
  - discriminate.
  - repeat constructor; vm_compute; reflexivity.
Defined.
End ConcurrencyClaim.

(** ** Rows that differ in one column *)

Section OneColumn.
Import Sqlite Migration.

Lemma build_row_lookup_find cols a n :
  build_row cols a !! n
  = (fun c => default (default_value c) (a !! n))
      <$> find (fun c => bool_decide (col_name c = n)) cols.
Proof.
  induction cols as [|c cols IH]; [done|]. simpl.
  case_bool_decide as E.
  - subst n. by rewrite lookup_insert_eq.
  - by rewrite lookup_insert_ne.
Qed.

(** Supplying a value for a column of the table changes that column of
the built row and no other. *)
Lemma build_row_insert cols a n v :
  has_column n (Table cols []) = true →
  build_row cols (<[n := v]> a) = <[n := v]> (build_row cols a).
Proof.
  intros Hn. apply map_eq. intros c. rewrite !build_row_lookup_find.
  destruct (decide (n = c)) as [<-|Hne].
  - rewrite !lookup_insert_eq.
    destruct (find _ cols) as [cd|] eqn:E; [done|].
    rewrite find_None in E. apply has_column_true in Hn as (cd & Hin & Hcd).
    apply E in Hin. simpl in Hin. by rewrite bool_decide_eq_true_2 in Hin.
  - rewrite !lookup_insert_ne by done. by rewrite build_row_lookup_find.
Qed.

Lemma eval_insert_ne e (r : row) n v :
  n ∉ expr_cols e → eval e (<[n := v]> r) = eval e r.
Proof.
  induction e as [c|e1 IH1 e2 IH2]; simpl; intros Hn.
  - rewrite cell_insert_ne; [done|]. set_solver.
  - rewrite IH1, IH2; [done|set_solver..].
Qed.

(** An index that is not over column [n] does not see it change. *)
Lemma conflicts_insert_ne ix r' (r : row) n v :
  n ∉ idx_cols ix ++ from_option expr_cols [] (idx_where ix) →
  conflicts ix r' (<[n := v]> r) = conflicts ix r' r.
Proof.
  intros Hn. unfold conflicts, in_index, index_key.
  assert (map (cell (<[n := v]> r)) (idx_cols ix) = map (cell r) (idx_cols ix))
    as ->.
  { apply map_ext_in. intros c Hc%list_elem_of_In.
    apply cell_insert_ne. intros ->. apply Hn, elem_of_app. by left. }
  destruct (idx_where ix) as [e|]; [|done]. simpl in *.
  rewrite eval_insert_ne; [done|]. intros He. apply Hn, elem_of_app. by right.
Qed.

Lemma unique_ok_insert_ne ix rows (r : row) n v :
  n ∉ idx_cols ix ++ from_option expr_cols [] (idx_where ix) →
  unique_ok ix rows (<[n := v]> r) = unique_ok ix rows r.
Proof.
  intros Hn. unfold unique_ok. induction rows as [|r' rows IH]; [done|].
  simpl. by rewrite IH, conflicts_insert_ne.
Qed.

(** A column that is nullable does not matter to the [NOT NULL] check. *)
Lemma check_not_null_insert t cols (r : row) n v :
  (∀ c, c ∈ cols → col_name c = n → col_notnull c = false) →
  check_not_null t cols r = Ok () →
  check_not_null t cols (<[n := v]> r) = Ok ().
Proof.
  rewrite !check_not_null_Ok. intros Hn Hok c Hc Hnn.
  destruct (decide (col_name c = n)) as [E|E].
  - rewrite (Hn c Hc E) in Hnn. done.
  - rewrite cell_insert_ne by done. by apply Hok.
Qed.
End OneColumn.

(** ** The columns of the phase slot and the other constraints *)

Section SlotColumns.
Import Sqlite Migration.

(** The indexes in the schema after the three [CREATE INDEX]es: those that
were there, and of the new ones only [ux_tasks_parent_phase] is unique. *)
Lemma run_create_indexes_indexes d d' ix :
  run create_indexes d = Ok d' →
  ix ∈ db_indexes d' →
  ix ∈ db_indexes d ∨ idx_unique ix = false
  ∨ idx_name ix = "ux_tasks_parent_phase".
Proof.
  unfold create_indexes. simpl. intros H.
  apply bind_Ok in H as (d1 & H1 & H).
  apply bind_Ok in H as (d2 & H2 & H).
  apply bind_Ok in H as (d3 & H3 & [= <-]).
  apply create_index_Ok in H1 as (tb1 & _ & _ & _ & K1).
  apply create_index_Ok in H2 as (tb2 & _ & _ & _ & K2).
  apply create_index_Ok in H3 as (tb3 & _ & _ & _ & K3).
  assert (ix ∈ db_indexes d3 → ix ∈ db_indexes d2
          ∨ idx_name ix = "ux_tasks_parent_phase") as S3.
  { destruct K3 as [[_ E]|(_ & _ & _ & E)]; rewrite E; [by left|].
    intros [?|Hix]%elem_of_app; [by left|].
    apply list_elem_of_singleton in Hix. subst ix. by right. }
  assert (ix ∈ db_indexes d2 → ix ∈ db_indexes d1 ∨ idx_unique ix = false)
    as S2.
  { destruct K2 as [[_ E]|(_ & _ & _ & E)]; rewrite E; [by left|].
    intros [?|Hix]%elem_of_app; [by left|].
    apply list_elem_of_singleton in Hix. subst ix. by right. }
  assert (ix ∈ db_indexes d1 → ix ∈ db_indexes d ∨ idx_unique ix = false)
    as S1.
  { destruct K1 as [[_ E]|(_ & _ & _ & E)]; rewrite E; [by left|].
    intros [?|Hix]%elem_of_app; [by left|].
    apply list_elem_of_singleton in Hix. subst ix. by right. }
  tauto.
Qed.

Lemma run_migration_unrelated d0 d1 :
  indexes_resolved d0 → run migration d0 = Ok d1 → unrelated_indexes d1.
Proof.
  unfold migration. rewrite run_app. intros Hres (d & Hc & Hi)%bind_Ok.
  apply run_add_columns in Hc as (tb0 & Htb0 & Hnames & _ & Hixs).
  intros ix Hin Ht Hu Hn c Hc.
  eapply run_create_indexes_indexes in Hin as [Hin|[?|?]]; [|congruence..|done].
  rewrite Hixs in Hin. rewrite <- Ht in Htb0.
  specialize (Hres ix tb0 Hin Htb0). unfold missing_column in Hres.
  rewrite find_None in Hres. apply Hres, negb_false_iff in Hc.
  apply has_column_true in Hc as (cd & Hcd & <-).
  rewrite Forall_forall in Hnames. apply Hnames in Hcd. set_solver.
Qed.

Lemma unrelated_indexes_apply_writes ws d :
  unrelated_indexes d → unrelated_indexes (apply_writes ws d).
Proof.
  unfold unrelated_indexes. by rewrite (proj1 (apply_writes_schema ws d)).
Qed.

(** In a table with the workflow columns, the two columns of the phase
slot are there, nullable and reference nothing. *)
Lemma slot_column_def tb n :
  workflow_columns tb →
  n = "parent_task_id" ∨ n = "phase_key" →
  has_column n tb = true
  ∧ ∀ c, c ∈ tbl_cols tb → col_name c = n →
         col_notnull c = false ∧ col_references c = None.
Proof.
  intros [(cols0 & Hc & Hnames) _] Hn. split.
  - apply has_column_true. rewrite Hc.
    destruct Hn as [-> | ->];
      [exists parent_task_id|exists phase_key];
      (split; [apply elem_of_app; right; set_solver|done]).
  - intros c. rewrite Hc. intros [Hin|Hin]%elem_of_app E.
    + rewrite Forall_forall in Hnames. apply Hnames in Hin.
      rewrite E in Hin. destruct Hn as [-> | ->]; set_solver.
    + set_unfold in Hin. destruct Hin as [->|[->|[->|[]]]]; try done.
      simpl in E. by destruct Hn as [-> | ->].
Qed.

(** A foreign key of another column is satisfied as before when a column
that references nothing takes a value. *)
Lemma fk_ok_insert d tb rows (rb : row) n v c :
  (col_name c = n → col_references c = None) →
  fk_ok (set_rows "tasks" tb (rows ++ [<[n := VNull]> rb]) d) c
    (<[n := VNull]> rb) = true →
  fk_ok (set_rows "tasks" tb (rows ++ [<[n := v]> rb]) d) c
    (<[n := v]> rb) = true.
Proof.
  unfold fk_ok. intros Hn.
  destruct (col_references c) as [[pt pc]|] eqn:Hc; [|done].
  assert (n ≠ col_name c) as Hne by (intros E; by specialize (Hn (eq_sym E))).
  rewrite !cell_insert_ne by done.
  destruct (is_null (cell rb (col_name c))) eqn:Hx; [done|]. simpl.
  unfold parent_exists, set_rows. simpl.
  destruct (decide (pt = "tasks")) as [->|Hpt].
  - rewrite !lookup_insert_eq. simpl. rewrite !existsb_app. simpl.
    destruct (existsb _ rows); [done|]. simpl. rewrite !orb_false_r.
    intros E%bool_decide_eq_true. apply bool_decide_eq_true.
    destruct (decide (n = pc)) as [<-|Hpc].
    + rewrite cell_insert_eq in E. rewrite <- E in Hx. done.
    + rewrite cell_insert_ne in * by done. done.
  - by rewrite !lookup_insert_ne.
Qed.

(** In a store the migration has been applied to, a task that is accepted
with a NULL in one column of the phase slot is accepted with any value
there, unless a stored row already holds the slot it then names. *)
Lemma insert_slot_column d n v a :
  columns_added d → phase_indexed d → unrelated_indexes d →
  n = "parent_task_id" ∨ n = "phase_key" →
  is_ok (insert_into "tasks" (<[n := VNull]> a) d) = true →
  (∀ r, r ∈ select_all "tasks" d → ¬ same_phase_slot r (<[n := v]> a)) →
  is_ok (insert_into "tasks" (<[n := v]> a) d) = true.
Proof.
  intros (tb & Htb & Hw) (_ & Hname & _) Hun Hn Hok Hfree.
  destruct (insert_into "tasks" (<[n := VNull]> a) d) as [d0|] eqn:E; [|done].
  apply insert_into_Ok in E as (tb' & Htb' & Hcc & Hnn & Hu & Hfk & _).
  assert (tb' = tb) as -> by congruence.
  destruct (slot_column_def tb n Hw Hn) as [Hhas Hdef].
  rewrite build_row_insert in Hnn, Hu, Hfk by done.
  set (rb := build_row (tbl_cols tb) a) in *.
  unfold select_all in Hfree. rewrite Htb in Hfree.
  assert (∃ d', insert_into "tasks" (<[n := v]> a) d = Ok d') as [d' ->];
    [|done].
  eexists. apply insert_into_Ok. exists tb. rewrite build_row_insert by done.
  fold rb. split_and!; try done.
  - apply check_columns_Ok. intros c Hc.
    apply (proj1 (check_columns_Ok _ _ _) Hcc).
    by rewrite lookup_insert_is_Some in *.
  - rewrite <- (insert_insert_eq rb n v VNull).
    apply check_not_null_insert; [|done]. intros c Hc Hcn.
    by apply Hdef.
  - apply check_unique_Ok. intros ix [Hin Ht]%elem_of_indexes_of Hux.
    destruct (decide (idx_name ix = "ux_tasks_parent_phase")) as [Hx|Hx].
    + rewrite (Hname ix Hin Hx). apply unique_ok_true. intros r' Hr'.
      apply not_true_is_false. intros Hs%conflicts_ux.
      apply (Hfree r' Hr').
      destruct (build_row_workflow tb (<[n := v]> a) Hw) as (_ & Hp & Hk).
      rewrite build_row_insert in Hp, Hk by done. fold rb in Hp, Hk.
      unfold same_phase_slot in *. by rewrite <- Hp, <- Hk.
    + assert (n ∉ idx_cols ix ++ from_option expr_cols [] (idx_where ix))
        as Hni.
      { intros Hc. destruct (Hun ix Hin Ht Hux Hx n Hc). by destruct Hn. }
      rewrite unique_ok_insert_ne by done.
      rewrite <- (unique_ok_insert_ne ix _ rb n VNull) by done.
      eapply check_unique_Ok; [done| |done]. by apply elem_of_indexes_of.
  - unfold check_fk in *.
    destruct (forallb _ _) eqn:F in Hfk; [|done].
    rewrite forallb_forall in F.
    rewrite (proj2 (forallb_forall _ _)); [done|].
    intros c Hc. apply fk_ok_insert; [|by apply F].
    intros E. by apply Hdef; [apply list_elem_of_In|].
Qed.

(** The check stops at the first unique index the row violates. *)
Lemma check_unique_first ixs rows r n :
  (∀ ix, ix ∈ ixs → idx_unique ix = true → idx_name ix ≠ n →
         unique_ok ix rows r = true) →
  (∃ ix, ix ∈ ixs ∧ idx_name ix = n ∧ idx_unique ix = true
         ∧ unique_ok ix rows r = false) →
  check_unique ixs rows r = Err (UniqueViolation n).
Proof.
  induction ixs as [|ix ixs IH]; intros Hother (ix' & Hin & Hn & Hu & Hbad).
  { by apply elem_of_nil in Hin. }
  simpl. destruct (idx_unique ix && negb (unique_ok ix rows r)) eqn:E.
  - apply andb_true_iff in E as [Hu' Hbad'%negb_true_iff].
    destruct (decide (idx_name ix = n)) as [->|Hne]; [done|].
    rewrite (Hother ix) in Hbad'; [done|left|done..].
  - apply IH.
    + intros ix'' Hin''. apply Hother. by right.
    + exists ix'. split_and!; try done.
      apply elem_of_cons in Hin as [->|Hin]; [|done].
      by rewrite Hu, Hbad in E.
Qed.

(** In a store the migration has been applied to, a task that would be
accepted without its phase, for a slot that a stored row holds, is
rejected by [ux_tasks_parent_phase]. *)
Lemma insert_slot_taken d a :
  columns_added d → phase_indexed d → unrelated_indexes d →
  is_ok (insert_into "tasks" (<["phase_key" := VNull]> a) d) = true →
  (∃ r, r ∈ select_all "tasks" d ∧ same_phase_slot r a) →
  insert_into "tasks" a d = Err (UniqueViolation "ux_tasks_parent_phase").
Proof.
  intros (tb & Htb & Hw) (Hux & Hname & _) Hun Hok (r & Hr & Hs).
  destruct (insert_into "tasks" (<["phase_key" := VNull]> a) d) as [d0|] eqn:E;
    [|done].
  apply insert_into_Ok in E as (tb' & Htb' & Hcc & Hnn & Hu & _).
  assert (tb' = tb) as -> by congruence.
  destruct (slot_column_def tb "phase_key" Hw ltac:(by right)) as [Hhas Hdef].
  rewrite build_row_insert in Hnn, Hu by done.
  set (rb := build_row (tbl_cols tb) a) in *.
  unfold select_all in Hr. rewrite Htb in Hr.
  assert (a = <["phase_key" := cell a "phase_key"]> a) as Ha.
  { symmetry. apply insert_id. unfold cell.
    destruct Hs as (_ & Hk & _ & Ek). rewrite Ek in Hk. unfold cell in Hk.
    by destruct (a !! "phase_key"). }
  assert (rb = <["phase_key" := cell a "phase_key"]> rb) as Hrb.
  { unfold rb. rewrite <- build_row_insert by done. by rewrite <- Ha. }
  unfold insert_into, lookup_table. rewrite Htb. simpl.
  rewrite (proj2 (check_columns_Ok "tasks" tb a)). simpl.
  2:{ intros c Hc. apply (proj1 (check_columns_Ok _ _ _) Hcc).
      rewrite lookup_insert_is_Some. destruct (decide ("phase_key" = c)); auto. }
  fold rb.
  assert (check_not_null "tasks" (tbl_cols tb) rb = Ok ()) as ->.
  { rewrite Hrb, <- (insert_insert_eq rb "phase_key" _ VNull).
    apply check_not_null_insert; [|done]. intros c Hc Hcn. by apply Hdef. }
  simpl.
  rewrite (check_unique_first _ _ _ "ux_tasks_parent_phase"); [done| |].
  - intros ix [Hin Ht]%elem_of_indexes_of Hu' Hne.
    assert ("phase_key" ∉ idx_cols ix ++ from_option expr_cols [] (idx_where ix))
      as Hni.
    { intros Hc. by destruct (Hun ix Hin Ht Hu' Hne "phase_key" Hc). }
    rewrite Hrb, unique_ok_insert_ne by done.
    rewrite <- (unique_ok_insert_ne ix _ rb "phase_key" VNull) by done.
    eapply check_unique_Ok; [done| |done]. by apply elem_of_indexes_of.
  - exists ux_tasks_parent_phase. split_and!; try done.
    + by apply elem_of_indexes_of.
    + apply not_true_is_false. rewrite unique_ok_true. intros Hall.
      specialize (Hall r Hr). apply not_true_iff_false in Hall. apply Hall.
      by apply conflicts_ux, same_phase_slot_build_row.
Qed.
End SlotColumns.

(** * The claims about phases and parents *)

Section SlotClaims.
Import Sqlite Migration.

(** The store a migrated store turns into when it accepts a task: one more
row, which holds the phase slot the insert names. *)
Lemma insert_into_rows a d d' :
  columns_added d →
  insert_into "tasks" a d = Ok d' →
  d' = apply_write d (Insert "tasks" a)
  ∧ ∃ r, select_all "tasks" d' = select_all "tasks" d ++ [r]
         ∧ cell r "parent_task_id" = cell a "parent_task_id"
         ∧ cell r "phase_key" = cell a "phase_key".
Proof.
  intros (tb & Htb & Hw) Hins. split.
  { unfold apply_write. simpl. by rewrite Hins. }
  apply insert_into_Ok in Hins as (tb' & Htb' & _ & _ & _ & _ & ->).
  assert (tb' = tb) as -> by congruence.
  exists (build_row (tbl_cols tb) a).
  destruct (build_row_workflow tb a Hw) as (_ & -> & ->).
  unfold select_all, set_rows. simpl. by rewrite lookup_insert_eq, Htb.
Qed.

(** The three facts about the schema that hold of every store reached by
writes after the migration. *)
Lemma migrated_store d0 d1 ws :
  unmigrated d0 → indexes_resolved d0 → run migration d0 = Ok d1 →
  columns_added (apply_writes ws d1)
  ∧ phase_indexed (apply_writes ws d1)
  ∧ unrelated_indexes (apply_writes ws d1).
Proof.
  intros Hfresh Hres Hrun. split_and!.
  - by eapply columns_added_apply_writes, run_migration_columns.
  - by eapply phase_indexed_apply_writes, run_migration_index.
  - by eapply unrelated_indexes_apply_writes, run_migration_unrelated.
Qed.

Lemma migrated_store_apply_write d w :
  columns_added d ∧ phase_indexed d ∧ unrelated_indexes d →
  columns_added (apply_write d w) ∧ phase_indexed (apply_write d w)
  ∧ unrelated_indexes (apply_write d w).
Proof.
  intros (H1 & H2 & H3). split_and!.
  - by apply columns_added_apply_write.
  - by apply phase_indexed_apply_write.
  - unfold unrelated_indexes. by rewrite (proj1 (apply_write_schema d w)).
Qed.

(** C4. In a store reached by writes after the migration where task A's id
is no row's parent yet: once A (no parent, no phase) and its child B in
phase "design" are inserted, a child C of A in phase "review" that would
be accepted without a phase is accepted, and after it a child of A in
phase "design" that would be accepted without a phase is rejected with
the violation of [ux_tasks_parent_phase]. *)
Theorem phase_scenario d0 d1 ws pa a b c dA dB :
  unmigrated d0 → indexes_resolved d0 →
  run migration d0 = Ok d1 →
  let d := apply_writes ws d1 in
  pa ≠ VNull →
  (∀ r, r ∈ select_all "tasks" d → cell r "parent_task_id" ≠ pa) →
  cell a "id" = pa →
  cell a "parent_task_id" = VNull → cell a "phase_key" = VNull →
  insert_into "tasks" a d = Ok dA →
  cell b "parent_task_id" = pa → cell b "phase_key" = VText "design" →
  insert_into "tasks" b dA = Ok dB →
  cell c "parent_task_id" = pa → cell c "phase_key" = VText "review" →
  is_ok (insert_into "tasks" (<["phase_key" := VNull]> c) dB) = true →
  ∃ dC, insert_into "tasks" c dB = Ok dC
    ∧ ∀ again, cell again "parent_task_id" = pa →
               cell again "phase_key" = VText "design" →
               is_ok (insert_into "tasks" (<["phase_key" := VNull]> again) dC)
               = true →
               insert_into "tasks" again dC
               = Err (UniqueViolation "ux_tasks_parent_phase").
Proof.
  intros Hfresh Hres Hrun d Hpa Hnew _ Hap Hak HA Hbp Hbk HB Hcp Hck HC0.
  pose proof (migrated_store d0 d1 ws Hfresh Hres Hrun) as Hd. fold d in Hd.
  apply insert_into_rows in HA as (-> & rA & HrowsA & HrAp & HrAk);
    [|apply Hd].
  apply (migrated_store_apply_write d (Insert "tasks" a)) in Hd as HdA.
  set (dA := apply_write d (Insert "tasks" a)) in *.
  apply insert_into_rows in HB as (-> & rB & HrowsB & HrBp & HrBk);
    [|apply HdA].
  apply (migrated_store_apply_write dA (Insert "tasks" b)) in HdA as HdB.
  set (dB := apply_write dA (Insert "tasks" b)) in *.
  assert (is_ok (insert_into "tasks" c dB) = true) as HC.
  { assert (c = <["phase_key" := VText "review"]> c) as Ec.
    { symmetry. apply insert_id. unfold cell in Hck.
      by destruct (c !! "phase_key"); simplify_eq/=. }
    rewrite Ec.
    apply insert_slot_column; try apply HdB; [by right|done|].
    rewrite <- Ec, HrowsB, HrowsA. intros r Hr (Hp & Hk & Ep & Ek).
    apply elem_of_app in Hr as [[Hr|Hr]%elem_of_app|Hr].
    - apply (Hnew r Hr). congruence.
    - apply list_elem_of_singleton in Hr as ->. congruence.
    - apply list_elem_of_singleton in Hr as ->. congruence. }
  destruct (insert_into "tasks" c dB) as [dC|] eqn:EC; [|done].
  exists dC. split; [done|]. intros again Hep Hek He0.
  apply insert_into_rows in EC as (-> & rC & HrowsC & _); [|apply HdB].
  apply (migrated_store_apply_write dB (Insert "tasks" c)) in HdB as HdC.
  apply insert_slot_taken; try apply HdC; [done|].
  exists rB. split.
  - rewrite HrowsC, HrowsB. apply elem_of_app. left. apply elem_of_app.
    right. by left.
  - unfold same_phase_slot. rewrite HrBp, HrBk, Hbp, Hbk, Hep, Hek. done.
Qed.

(** C8. The [parent_task_id] column references nothing.  In every store
reached by writes after the migration, a task that is accepted as a
top-level task is accepted with any [parent_task_id], the id of a stored
task or not, unless a stored row already holds the phase slot it then
names. *)
Theorem dangling_parent_accepted d0 d1 ws a v :
  unmigrated d0 → indexes_resolved d0 →
  run migration d0 = Ok d1 →
  let d := apply_writes ws d1 in
  (∀ tb c, db_tables d !! "tasks" = Some tb → c ∈ tbl_cols tb →
           col_name c = "parent_task_id" → col_references c = None)
  ∧ (is_ok (insert_into "tasks" (<["parent_task_id" := VNull]> a) d) = true →
     (∀ r, r ∈ select_all "tasks" d →
           ¬ same_phase_slot r (<["parent_task_id" := v]> a)) →
     is_ok (insert_into "tasks" (<["parent_task_id" := v]> a) d) = true).
Proof.
  intros Hfresh Hres Hrun d.
  pose proof (migrated_store d0 d1 ws Hfresh Hres Hrun) as (Hc & Hi & Hu).
  fold d in Hc, Hi, Hu. split.
  - intros tb c Htb Hin Hn. destruct Hc as (tb' & Htb' & Hw).
    assert (tb' = tb) as -> by congruence.
    by apply (slot_column_def tb "parent_task_id" Hw ltac:(by left)).
  - intros Hok Hfree. apply insert_slot_column; try done. by left.
Qed.

Lemma base_resolved : indexes_resolved Example.base.
Proof.
  intros ix tb Hin Htb. apply list_elem_of_singleton in Hin as ->.
  simpl in Htb. rewrite lookup_singleton_eq in Htb. injection Htb as <-.
  reflexivity.
Qed.

Lemma phase_scenario_witness :
  let d := apply_writes [] Example.migrated in
  let dB := apply_writes (take 2 Example.family) Example.migrated in
  ∃ dC, insert_into "tasks" (Example.child x03 "C" x01 "review") dB = Ok dC
    ∧ ∀ again, cell again "parent_task_id" = Example.uuid x01 →
               cell again "phase_key" = VText "design" →
               is_ok (insert_into "tasks" (<["phase_key" := VNull]> again) dC)
               = true →
               insert_into "tasks" again dC
               = Err (UniqueViolation "ux_tasks_parent_phase").
Proof.
  apply (phase_scenario Example.base Example.migrated [] (Example.uuid x01)
           (Example.task x01 "A") (Example.child x02 "B" x01 "design")
           (Example.child x03 "C" x01 "review")
           (apply_writes (take 1 Example.family) Example.migrated)).
  - reflexivity.
  - exact base_resolved.
  - vm_compute; reflexivity.
  - discriminate.
  - intros r Hr. apply list_elem_of_singleton in Hr as ->. discriminate.
  - reflexivity.
  - reflexivity.
  - reflexivity.
  - vm_compute; reflexivity.
  - reflexivity.
  - reflexivity.
  - vm_compute; reflexivity.
  - reflexivity.
  - reflexivity.
  - vm_compute; reflexivity.
Defined.

Lemma dangling_parent_accepted_witness :
  let d := apply_writes Example.family Example.migrated in
  (Example.uuid x09 ∉ (fun r => cell r "id") <$> select_all "tasks" d)
  ∧ (∀ tb c, db_tables d !! "tasks" = Some tb → c ∈ tbl_cols tb →
             col_name c = "parent_task_id" → col_references c = None)
  ∧ is_ok (insert_into "tasks"
             (<["parent_task_id" := Example.uuid x09]> (Example.task x05 "E")) d)
    = true.
Proof.
  intros d. split.
  { apply (bool_decide_unpack _). vm_compute. exact I. }
  destruct (dangling_parent_accepted Example.base Example.migrated
              Example.family (Example.task x05 "E") (Example.uuid x09))
    as [Hnone Hacc].
  - reflexivity.
  - exact base_resolved.
  - vm_compute; reflexivity.
  - split; [exact Hnone|]. apply Hacc.
    + vm_compute; reflexivity.
    + intros r _ (_ & Hk & _ & Ek). rewrite Ek in Hk. by apply Hk.
Defined.
End SlotClaims.

(** * Inserts that are accepted *)

Section Accepted.
Import Sqlite Migration.

Lemma is_ok_bind {A} (m : result unit) (k : result A) :
  is_ok (m;; k) = is_ok m && is_ok k.
Proof. by destruct m as [[]|]. Qed.

Lemma is_ok_check_columns t tb a :
  is_ok (check_columns t tb a)
  = forallb (fun c => has_column c tb) (map fst (map_to_list a)).
Proof.
  unfold check_columns, missing_column.
  induction (map fst (map_to_list a)) as [|c cs IH]; [done|]. simpl.
  by destruct (has_column c tb).
Qed.

Lemma is_ok_check_not_null t cols r :
  is_ok (check_not_null t cols r)
  = forallb (fun c => negb (col_notnull c && is_null (cell r (col_name c))))
      cols.
Proof.
  induction cols as [|c cols IH]; [done|]. simpl.
  by destruct (col_notnull c && is_null (cell r (col_name c))).
Qed.

Lemma is_ok_check_unique_except n ixs rows r :
  (∀ ix, ix ∈ ixs → idx_name ix = n → unique_ok ix rows r = true) →
  is_ok (check_unique ixs rows r)
  = forallb (fun ix => negb (idx_unique ix) || bool_decide (idx_name ix = n)
                       || unique_ok ix rows r) ixs.
Proof.
  induction ixs as [|ix ixs IH]; [done|]. intros H. simpl.
  rewrite <- IH by (intros ix' Hin; apply H; by right).
  destruct (idx_unique ix); simpl; [|done].
  destruct (unique_ok ix rows r) eqn:E; simpl.
  { by rewrite orb_true_r. }
  case_bool_decide as En; [|done].
  rewrite H in E; [done|left|done].
Qed.

Lemma is_ok_check_fk d cols r :
  is_ok (check_fk d cols r) = forallb (fun c => fk_ok d c r) cols.
Proof. unfold check_fk. by destruct (forallb _ _). Qed.

(** An insert that claims no slot is accepted exactly when the other
checks let it pass. *)
Lemma insert_unphased_accepted d a :
  columns_added d → phase_indexed d → unphased a →
  is_ok (insert_into "tasks" a d) = passes_other_checks a d.
Proof.
  intros (tb & Htb & Hcols) (_ & Hname & _) Hnull.
  unfold insert_into, passes_other_checks, lookup_table. rewrite Htb.
  change (Ok tb ≫= ?k) with (k tb). cbv beta zeta.
  rewrite !is_ok_bind, is_ok_check_columns, is_ok_check_not_null,
    is_ok_check_fk.
  rewrite (is_ok_check_unique_except "ux_tasks_parent_phase").
  - simpl. by rewrite andb_true_r, !andb_assoc.
  - intros ix [Hin _]%elem_of_indexes_of Hn.
    rewrite (Hname ix Hin Hn). by apply unique_ok_unphased.
Qed.

Lemma insert_unphased_stored d a :
  columns_added d → phase_indexed d → unphased a →
  passes_other_checks a d = true →
  ∃ d' r, insert_into "tasks" a d = Ok d'
          ∧ select_all "tasks" d' = select_all "tasks" d ++ [r]
          ∧ cell r "parent_task_id" = cell a "parent_task_id"
          ∧ cell r "phase_key" = cell a "phase_key".
Proof.
  intros Hc Hi Ha Hp. rewrite <- insert_unphased_accepted in Hp by done.
  destruct (insert_into "tasks" a d) as [d'|] eqn:E; [|done].
  destruct (insert_into_rows a d d' Hc E) as (_ & r & Hr).
  by exists d', r.
Qed.

Lemma inserts_unphased_stored rows d :
  columns_added d → phase_indexed d → Forall unphased rows →
  pass_in_turn rows d = true →
  ∃ rs, select_all "tasks" (apply_writes (Insert "tasks" <$> rows) d)
        = select_all "tasks" d ++ rs
        ∧ Forall2 (fun a r =>
                     cell r "parent_task_id" = cell a "parent_task_id"
                     ∧ cell r "phase_key" = cell a "phase_key") rows rs.
Proof.
  intros Hc Hi Hrows. revert d Hc Hi.
  induction Hrows as [|a rows Ha _ IH]; intros d Hc Hi Hp.
  { exists []. by rewrite app_nil_r. }
  simpl in Hp. apply andb_true_iff in Hp as [Hp Hps].
  destruct (insert_unphased_stored d a Hc Hi Ha Hp) as (d' & r & E & Hd' & Hr).
  assert (apply_write d (Insert "tasks" a) = d') as Hw.
  { unfold apply_write. simpl. by rewrite E. }
  rewrite Hw in Hps.
  destruct (IH d') as (rs & Hrs & Hall); [| |done|].
  { rewrite <- Hw. by apply columns_added_apply_write. }
  { rewrite <- Hw. by apply phase_indexed_apply_write. }
  exists (r :: rs). rewrite fmap_cons. unfold apply_writes in *. simpl.
  rewrite Hw, Hrs, Hd', <- app_assoc. split; [done|]. by constructor.
Qed.

(** Leaving [track] out of an insert and supplying ['quick'] for it build
the same row. *)
Lemma build_row_track_default tb a :
  workflow_columns tb → a !! "track" = None →
  build_row (tbl_cols tb) (<["track" := VText "quick"]> a)
  = build_row (tbl_cols tb) a.
Proof.
  intros Hw Ha. destruct (build_row_workflow tb a Hw) as (Ht & _).
  rewrite Ha in Ht. rewrite build_row_insert.
  - by apply insert_id.
  - destruct Hw as [(cols0 & -> & _) _]. apply has_column_true.
    exists track. split; [|done]. simpl. set_solver.
Qed.

Lemma insert_track_default d a d' :
  columns_added d → a !! "track" = None →
  insert_into "tasks" a d = Ok d'
  ↔ insert_into "tasks" (<["track" := VText "quick"]> a) d = Ok d'.
Proof.
  intros (tb & Htb & Hw) Ha.
  assert (has_column "track" tb = true) as Ht.
  { destruct Hw as [(cols0 & Hc & _) _]. apply has_column_true.
    exists track. split; [|done]. rewrite Hc. set_solver. }
  assert (check_columns "tasks" tb (<["track" := VText "quick"]> a) = Ok ()
          ↔ check_columns "tasks" tb a = Ok ()) as Hcc.
  { rewrite !check_columns_Ok. split.
    - intros H c Hc. apply H. rewrite lookup_insert_is_Some.
      destruct (decide ("track" = c)); eauto.
    - intros H c [<-|[_ Hc]]%lookup_insert_is_Some; [done|by apply H]. }
  rewrite !insert_into_Ok. split.
  - intros (tb' & Htb' & H1 & H). assert (tb' = tb) as -> by congruence.
    exists tb. rewrite build_row_track_default by done.
    split; [done|]. split; [by apply Hcc|done].
  - intros (tb' & Htb' & H1 & H). assert (tb' = tb) as -> by congruence.
    rewrite build_row_track_default in H by done.
    exists tb. split; [done|]. split; [by apply Hcc|done].
Qed.

(** C2. In every store reached by writes after the migration, a task
inserted with a NULL [parent_task_id] or a NULL [phase_key] is never
rejected by the phase index: the insert has the result it has with the
index dropped (the same error, or the same rows), which is never the
violation of [ux_tasks_parent_phase], and so it is for any number of such
inserts one after the other.  Such an insert is accepted exactly when the
other checks let it pass (its columns exist, no [NOT NULL] column is left
NULL, no other unique index has its key, its references resolve), and the
row is then stored after the rows there were, under the parent and with
the phase it was given; any number of such rows that pass the other checks
in their turn are all stored, in order. *)
Theorem unphased_never_rejected d0 d1 ws :
  unmigrated d0 →
  run migration d0 = Ok d1 →
  let d := apply_writes ws d1 in
  let without := drop_index "ux_tasks_parent_phase" in
  (∀ a, unphased a →
        insert_into "tasks" a (without d) = without <$> insert_into "tasks" a d
        ∧ insert_into "tasks" a d
          ≠ Err (UniqueViolation "ux_tasks_parent_phase"))
  ∧ (∀ rows, Forall unphased rows →
             apply_writes (Insert "tasks" <$> rows) (without d)
             = without (apply_writes (Insert "tasks" <$> rows) d))
  ∧ (∀ a, unphased a →
          is_ok (insert_into "tasks" a d) = passes_other_checks a d)
  ∧ (∀ a, unphased a → passes_other_checks a d = true →
          ∃ d' r, insert_into "tasks" a d = Ok d'
                  ∧ select_all "tasks" d' = select_all "tasks" d ++ [r]
                  ∧ cell r "parent_task_id" = cell a "parent_task_id"
                  ∧ cell r "phase_key" = cell a "phase_key")
  ∧ (∀ rows, Forall unphased rows → pass_in_turn rows d = true →
             ∃ rs, select_all "tasks" (apply_writes (Insert "tasks" <$> rows) d)
                   = select_all "tasks" d ++ rs
                   ∧ Forall2 (fun a r =>
                                cell r "parent_task_id" = cell a "parent_task_id"
                                ∧ cell r "phase_key" = cell a "phase_key")
                       rows rs).
Proof.
  intros Hfresh Hrun d without.
  assert (columns_added d) as Hc
    by by eapply columns_added_apply_writes, run_migration_columns.
  assert (phase_indexed d) as Hi
    by by eapply phase_indexed_apply_writes, run_migration_index.
  split_and!.
  - intros a Ha. split; [by apply insert_unphased_drop|].
    by apply insert_unphased_no_violation.
  - intros rows Hrows. clearbody d. revert d Hc Hi.
    induction Hrows as [|a rows Ha _ IH]; intros d Hc Hi; [done|].
    rewrite fmap_cons. unfold apply_writes in *. simpl.
    rewrite <- IH
      by (by apply columns_added_apply_write || by apply phase_indexed_apply_write).
    f_equal. unfold apply_write. simpl. unfold without.
    rewrite insert_unphased_drop by done.
    by destruct (insert_into "tasks" a d).
  - intros a Ha. by apply insert_unphased_accepted.
  - intros a Ha Hp. by apply insert_unphased_stored.
  - intros rows Hrows Hp. by apply inserts_unphased_stored.
Qed.

(** On the example store the four tasks of [Example.siblings], two of them
under A, claim no slot and pass the other checks: each is accepted, and
the four are stored after the family. *)
Lemma unphased_never_rejected_witness :
  unmigrated Example.base
  ∧ run migration Example.base = Ok Example.migrated
  ∧ Forall unphased Example.siblings
  ∧ pass_in_turn Example.siblings Example.store = true
  ∧ Forall (fun a => is_ok (insert_into "tasks" a Example.store) = true)
      Example.siblings
  ∧ ∃ rs, select_all "tasks"
            (apply_writes (Insert "tasks" <$> Example.siblings) Example.store)
          = select_all "tasks" Example.store ++ rs
          ∧ Forall2 (fun a r =>
                       cell r "parent_task_id" = cell a "parent_task_id"
                       ∧ cell r "phase_key" = cell a "phase_key")
              Example.siblings rs.
Proof.
  assert (Forall unphased Example.siblings) as Hs.
  { repeat constructor; (by left) || by right. }
  assert (pass_in_turn Example.siblings Example.store = true) as Hp
    by (vm_compute; reflexivity).
  destruct (unphased_never_rejected Example.base Example.migrated
              Example.family) as (_ & _ & Hone & _ & Hall).
  - reflexivity.
  - vm_compute; reflexivity.
  - split; [reflexivity|]. split; [vm_compute; reflexivity|].
    split; [done|]. split; [done|]. split.
    + apply Forall_forall. intros a Ha. rewrite Forall_forall in Hs.
      unfold Example.store. rewrite (Hone a (Hs a Ha)).
      revert a Ha. apply Forall_forall.
      repeat constructor; vm_compute; reflexivity.
    + by apply Hall.
Defined.

(** C5. The [track] column is declared [TEXT NOT NULL DEFAULT 'quick'].
The rows stored before the migration have [track = 'quick'] after it; in
every store reached by writes since, no row of [tasks] has a NULL [track],
and a task inserted without a [track] is stored, and read back, with
[track = 'quick']: such an insert is accepted exactly when the insert that
supplies ['quick'] for [track] is, and leaves the same store. *)
Theorem track_defaults_to_quick d0 d1 ws :
  run migration d0 = Ok d1 →
  let d := apply_writes ws d1 in
  (∀ r, r ∈ select_all "tasks" d1 → r !! "track" = Some (VText "quick"))
  ∧ (∃ tb, db_tables d !! "tasks" = Some tb
         ∧ ColumnDef "track" TEXT true (Some (VText "quick")) None ∈ tbl_cols tb
         ∧ ∀ c, c ∈ tbl_cols tb → col_name c = "track" → c = track)
  ∧ (∀ r, r ∈ select_all "tasks" d → cell r "track" ≠ VNull)
  ∧ (∀ a d', a !! "track" = None →
             insert_into "tasks" a d = Ok d' →
             ∃ r, select_all "tasks" d' = select_all "tasks" d ++ [r]
                  ∧ r !! "track" = Some (VText "quick"))
  ∧ (∀ a d', a !! "track" = None →
             insert_into "tasks" a d = Ok d'
             ↔ insert_into "tasks" (<["track" := VText "quick"]> a) d = Ok d').
Proof.
  intros Hrun d.
  assert (columns_added d) as (tb & Htb & Hcols)
    by by eapply columns_added_apply_writes, run_migration_columns.
  split.
  { intros r. apply run_migration_rows in Hrun as (tb0 & _ & ->).
    intros (r0 & -> & _)%list_elem_of_fmap.
    rewrite 2!lookup_insert_ne by done. apply lookup_insert_eq. }
  unfold select_all. rewrite Htb. split_and!.
  - exists tb. destruct Hcols as [(cols0 & Hc & Hnames) _].
    split; [done|]. rewrite Hc. split; [set_solver|].
    intros c [Hin|Hin]%elem_of_app Hn.
    + rewrite Forall_forall in Hnames. apply Hnames in Hin.
      rewrite Hn in Hin. set_solver.
    + set_unfold in Hin. by destruct Hin as [->|[->|[->|[]]]].
  - intros r Hr. destruct Hcols as [_ Htrack].
    rewrite Forall_forall in Htrack. by apply is_null_false, Htrack.
  - intros a d' Ha (tb' & Htb' & _ & _ & _ & _ & ->)%insert_into_Ok.
    assert (tb' = tb) as -> by congruence.
    exists (build_row (tbl_cols tb) a). unfold set_rows. simpl.
    rewrite lookup_insert_eq. split; [done|].
    destruct (build_row_workflow tb a Hcols) as (-> & _). by rewrite Ha.
  - intros a d' Ha. apply insert_track_default; [|done]. by exists tb.
Qed.

(** On the example store the task E, inserted with an [id] and a [title]
and nothing else, is accepted, and the row read back last has
[track = 'quick']. *)
Lemma track_defaults_to_quick_witness :
  run migration Example.base = Ok Example.migrated
  ∧ Example.task x05 "E" !! "track" = None
  ∧ is_ok (insert_into "tasks" (Example.task x05 "E") Example.store) = true
  ∧ (∀ r, r ∈ select_all "tasks" Example.migrated →
          r !! "track" = Some (VText "quick"))
  ∧ (∀ r, r ∈ select_all "tasks" Example.store → cell r "track" ≠ VNull)
  ∧ ∃ r, select_all "tasks"
           (apply_write Example.store (Insert "tasks" (Example.task x05 "E")))
         = select_all "tasks" Example.store ++ [r]
         ∧ r !! "track" = Some (VText "quick").
Proof.
  destruct (track_defaults_to_quick Example.base Example.migrated
              Example.family) as (Hold & _ & Hnull & Hback & _).
  - vm_compute; reflexivity.
  - split; [vm_compute; reflexivity|]. split; [reflexivity|].
    split; [vm_compute; reflexivity|]. split; [done|]. split; [done|].
    apply (Hback (Example.task x05 "E")); [reflexivity|].
    vm_compute; reflexivity.
Defined.
End Accepted.

(** * The client side *)

Section Hook.
Import Frontend.

Lemma truthy_Some taskId :
  truthy taskId = true ↔ ∃ s, taskId = Some s ∧ s ≠ "".
Proof.
  destruct taskId as [s|]; simpl.
  - rewrite negb_true_iff, String.eqb_neq. split; [eauto|].
    by intros (? & [= <-] & ?).
  - split; [done|]. by intros (? & ? & ?).
Qed.



Lemma elem_of_calls q os call :
  call ∈ calls q os ↔
  ∃ o, o ∈ os ∧ starts_fetch q o = true ∧ call = queryFn q ().
Proof.
  unfold calls. rewrite list_elem_of_bind. unfold fetch. split.
  - intros (o & Hc & Ho). exists o. destruct (starts_fetch q o).
    + by apply elem_of_replicate in Hc as [-> _].
    + by apply elem_of_nil in Hc.
  - intros (o & Ho & Hs & ->). exists o. split; [|done].
    rewrite Hs. unfold attempts. simpl. left.
Qed.

Lemma calls_cons q o os : calls q (o :: os) = fetch q o ++ calls q os.
Proof. done. Qed.




End Hook.

Section Dialog.
Import Frontend.

Lemma Map_set_keys k v m :
  (Map_set k v m).*1 = if decide (k ∈ m.*1) then m.*1 else m.*1 ++ [k].
Proof.
  induction m as [|[k' v'] m IH]; [done|]. cbn [Map_set].
  destruct (decide (k' = k)) as [->|Hne]; rewrite !fmap_cons; cbn [fst].
  - by rewrite decide_True by left.
  - rewrite IH. destruct (decide (k ∈ m.*1)) as [Hin|Hin].
    + by rewrite decide_True by by right.
    + rewrite decide_False; [done|].
      intros [?|?]%elem_of_cons; congruence.
Qed.

Lemma Map_set_NoDup k v m : NoDup m.*1 → NoDup (Map_set k v m).*1.
Proof.
  intros Hm. rewrite Map_set_keys. case_decide as Hin; [done|].
  apply NoDup_app. split_and!; [done| |apply NoDup_singleton].
  intros x Hx ->%list_elem_of_singleton. done.
Qed.

(** After [set], the key holds the new value and every other key holds
what it held. *)
Lemma Map_set_elem_of k v m k' v' :
  NoDup m.*1 →
  (k', v') ∈ Map_set k v m ↔ (k' = k ∧ v' = v) ∨ (k' ≠ k ∧ (k', v') ∈ m).
Proof.
  induction m as [|[k0 v0] m IH]; simpl; intros Hm.
  - rewrite list_elem_of_singleton. split.
    + intros [= -> ->]. by left.
    + intros [[-> ->]|[_ H]]; [done|]. by apply elem_of_nil in H.
  - apply NoDup_cons in Hm as [Hk0 Hm]. specialize (IH Hm).
    destruct (decide (k0 = k)) as [->|Hne].
    + rewrite !elem_of_cons. split.
      * intros [[= -> ->]|Hin]; [by left|]. right. split; [|by right].
        intros ->. apply Hk0. apply list_elem_of_fmap. by exists (k, v').
      * intros [[-> ->]|[Hne [[= ? ?]|Hin]]]; [by left|done|by right].
    + rewrite !elem_of_cons, IH. split.
      * intros [[= -> ->]|[?|[? ?]]]; [right; split; [done|by left]|by left|].
        right. split; [done|by right].
      * intros [[-> ->]|[? [[= -> ->]|?]]]; [right; by left|by left|].
        right. by right.
Qed.

Lemma set_each_app cs1 cs2 byId :
  set_each (cs1 ++ cs2) byId = set_each cs2 (set_each cs1 byId).
Proof. apply foldl_app. Qed.

(** The map built from a sequence of tasks has each id once, under it the
task of that id that comes last in the sequence. *)
Lemma set_each_spec ts :
  NoDup (set_each ts []).*1
  ∧ ∀ k v, (k, v) ∈ set_each ts [] ↔
           k = id v ∧ ∃ l1 l2, ts = l1 ++ v :: l2 ∧ ∀ u, u ∈ l2 → id u ≠ id v.
Proof.
  induction ts as [|t ts [IHn IH]] using rev_ind.
  - split; [constructor|]. intros k v. split.
    + intros H. by apply elem_of_nil in H.
    + intros (_ & l1 & l2 & H & _). by destruct l1.
  - rewrite set_each_app. simpl. split; [by apply Map_set_NoDup|].
    intros k v. rewrite Map_set_elem_of, IH by done. split.
    + intros [[-> ->]|(Hne & -> & l1 & l2 & -> & Hl2)].
      * split; [done|]. exists ts, []. split; [done|].
        intros u Hu. by apply elem_of_nil in Hu.
      * split; [done|]. exists l1, (l2 ++ [t]). split.
        { by rewrite <- app_assoc. }
        intros u [Hu|Hu]%elem_of_app; [by apply Hl2|].
        apply list_elem_of_singleton in Hu. congruence.
    + intros (-> & l1 & l2 & E & Hl2).
      destruct l2 as [|x l2 _] using rev_ind.
      * apply app_inj_tail in E as [-> ->]. by left.
      * rewrite app_comm_cons, app_assoc in E.
        apply app_inj_tail in E as [-> ->]. right. split_and!; try done.
        { intros E. symmetry in E. revert E. apply Hl2.
          apply elem_of_app. right. by left. }
        exists l1, l2. split; [done|]. intros u Hu. apply Hl2.
        apply elem_of_app. by left.
Qed.

(** The dialog's list is the values of the map built from [sources]. *)
Lemma relatedTasks_sources relationships data :
  relatedTasks relationships data
  = Map_values (set_each (sources relationships data) []).
Proof.
  unfold relatedTasks, sources. rewrite set_each_app. f_equal. f_equal.
  destruct relationships as [[[p|] cs]|]; simpl; try done.
Qed.

Lemma Map_values_ids m :
  (∀ k v, (k, v) ∈ m → k = id v) → id <$> Map_values m = m.*1.
Proof.
  unfold Map_values. induction m as [|[k v] m IH]; intros H; [done|].
  simpl. rewrite <- (H k v) by left. f_equal. apply IH.
  intros k' v' Hin. apply H. by right.
Qed.

(** Among the tasks of a sequence that share an id, one comes last. *)
Lemma last_with_id ts t :
  t ∈ ts →
  ∃ u l1 l2, ts = l1 ++ u :: l2 ∧ id t = id u ∧ ∀ w, w ∈ l2 → id w ≠ id u.
Proof.
  induction ts as [|x ts IH] using rev_ind; intros Hin.
  { by apply elem_of_nil in Hin. }
  destruct (decide (id x = id t)) as [E|Hne].
  - exists x, ts, []. split_and!; try done.
    intros w Hw. by apply elem_of_nil in Hw.
  - apply elem_of_app in Hin as [Hin|Hin].
    + destruct (IH Hin) as (u & l1 & l2 & -> & Hu & Hl).
      exists u, l1, (l2 ++ [x]). split_and!; try done.
      * by rewrite <- app_assoc.
      * intros w [Hw|Hw]%elem_of_app; [by apply Hl|].
        apply list_elem_of_singleton in Hw. congruence.
    + apply list_elem_of_singleton in Hin. congruence.
Qed.

(** C10. Whatever the relationships response and the children response
hold, the ids of [relatedTasks] are pairwise distinct; a task is in the
list exactly when it is the last of its id among the tasks fed to the
map (parent, then [relationships.children], then [taskChildren]); and
the list has an entry for every id among them. *)
Theorem relatedTasks_distinct relationships data :
  NoDup (id <$> relatedTasks relationships data)
  ∧ (∀ t, t ∈ relatedTasks relationships data ↔
          ∃ l1 l2, sources relationships data = l1 ++ t :: l2
                   ∧ ∀ u, u ∈ l2 → id u ≠ id t)
  ∧ (∀ i, i ∈ id <$> sources relationships data ↔
          i ∈ id <$> relatedTasks relationships data).
Proof.
  rewrite relatedTasks_sources.
  destruct (set_each_spec (sources relationships data)) as [Hn Hspec].
  set (ts := sources relationships data) in *.
  assert (∀ t, t ∈ Map_values (set_each ts []) ↔
               ∃ l1 l2, ts = l1 ++ t :: l2 ∧ ∀ u, u ∈ l2 → id u ≠ id t) as Hmem.
  { intros t. unfold Map_values. rewrite list_elem_of_fmap. split.
    - intros ([k v] & -> & Hin). by apply Hspec in Hin as [_ ?].
    - intros H. exists (id t, t). split; [done|]. by apply Hspec. }
  split_and!; [|done|].
  - rewrite Map_values_ids; [done|]. intros k v Hin. by apply Hspec in Hin as [? _].
  - intros i. rewrite !list_elem_of_fmap. split.
    + intros (t & -> & Hin).
      apply last_with_id in Hin as (u & l1 & l2 & E & Hu & Hl).
      exists u. split; [done|]. apply Hmem. eauto.
    + intros (t & -> & Hin). apply Hmem in Hin as (l1 & l2 & E & _).
      exists t. split; [done|]. rewrite E. apply elem_of_app. right. by left.
Qed.
End Dialog.

(** * The definitions at work *)

Section Examples.
Import Sqlite Migration Frontend.

(** The migration keeps the row stored before it and fills in the
defaults. *)
Example migrated_rows :
  select_all "tasks" Example.migrated
  = [ {[ "id" := VBlob (replicate 16 x00);
         "title" := VText "from before";
         "description" := VNull;
         "track" := VText "quick";
         "parent_task_id" := VNull;
         "phase_key" := VNull ]} ].
Proof. vm_compute. reflexivity. Qed.

(** A, B and C are stored; D, for the slot B holds, is not. *)
Example family_stored : length (select_all "tasks" Example.store) = 4.
Proof. vm_compute. reflexivity. Qed.

Example second_design_rejected :
  insert_into "tasks" (Example.child x04 "D" x01 "design") Example.store
  = Err (UniqueViolation "ux_tasks_parent_phase").
Proof. vm_compute. reflexivity. Qed.

(** The index also stops an update that would move C into B's slot. *)
Example update_into_taken_slot :
  update_row "tasks" 3 {[ "phase_key" := VText "design" ]} Example.store
  = Err (UniqueViolation "ux_tasks_parent_phase").
Proof. vm_compute. reflexivity. Qed.

(** Once B is deleted its slot is free again. *)
Example slot_freed_by_delete :
  is_ok (d ← delete_row "tasks" 2 Example.store;
         insert_into "tasks" (Example.child x04 "D" x01 "design") d) = true.
Proof. vm_compute. reflexivity. Qed.

(** Children of A without a phase, as many as one likes. *)
Example unphased_siblings :
  is_ok (d ← insert_into "tasks" (<["parent_task_id" := Example.uuid x01]>
                                    (Example.task x05 "E")) Example.store;
         d ← insert_into "tasks" (<["parent_task_id" := Example.uuid x01]>
                                    (Example.task x06 "F")) d;
         insert_into "tasks" (<["parent_task_id" := Example.uuid x01]>
                                (Example.task x07 "G")) d) = true.
Proof. vm_compute. reflexivity. Qed.

(** The example table's own primary key still applies. *)
Example same_id_rejected :
  insert_into "tasks" (Example.task x01 "A again") Example.store
  = Err (UniqueViolation "sqlite_autoindex_tasks_1").
Proof. vm_compute. reflexivity. Qed.

Example explicit_null_track :
  insert_into "tasks" (<["track" := VNull]> (Example.task x05 "E")) Example.store
  = Err (NotNullViolation "tasks" "track").
Proof. vm_compute. reflexivity. Qed.

Example migration_twice :
  run migration Example.migrated = Err (DuplicateColumn "track").
Proof. vm_compute. reflexivity. Qed.

(** Three rivals for one slot, the second served first: it wins, and the
other two are turned away. *)
Example second_writer_first :
  let d := apply_writes [Insert "tasks" (Example.task x01 "A")] Example.migrated in
  ∃ s', rtc Writers.step
          (Writers.System d (Insert "tasks" <$> Example.rivals) []) s'
        ∧ Writers.outcomes s'
          = [ Ok ();
              Err (UniqueViolation "ux_tasks_parent_phase");
              Err (UniqueViolation "ux_tasks_parent_phase") ]
        ∧ (fun r => cell r "title") <$> select_all "tasks" (Writers.store s')
          = [ VText "from before"; VText "A"; VText "B'" ].
Proof.
  intros d. eexists. split.
  - eapply rtc_l.
    { apply (Writers.step_writer d
               [Insert "tasks" (Example.child x02 "B" x01 "design")]
               (Insert "tasks" (Example.child x03 "B'" x01 "design"))
               [Insert "tasks" (Example.child x04 "B''" x01 "design")] []). }
    eapply rtc_l.
    { apply (Writers.step_writer _ []
               (Insert "tasks" (Example.child x02 "B" x01 "design"))
               [Insert "tasks" (Example.child x04 "B''" x01 "design")]). }
    eapply rtc_l.
    { apply (Writers.step_writer _ []
               (Insert "tasks" (Example.child x04 "B''" x01 "design")) []). }
    apply rtc_refl.
  - vm_compute. done.
Qed.

(** The hook.  Without a [taskId] nothing is fetched on mount, on refocus
or on invalidation. *)
Example no_taskId :
  calls (useTaskChildren None None)
    [ {| trig := mounted; age := None; failures := 2 |};
      {| trig := window_focus; age := Some 60000%Z; failures := 0 |};
      {| trig := invalidated; age := Some 60000%Z; failures := 0 |} ]
  = [].
Proof. reflexivity. Qed.

Example empty_taskId :
  calls (useTaskChildren (Some "") None)
    [ {| trig := mounted; age := None; failures := 0 |} ] = [].
Proof. reflexivity. Qed.

Example switched_off :
  calls (useTaskChildren (Some "t1")
           (Some {| opt_enabled := Some false;
                    opt_refetchInterval := Some (Number 5000);
                    opt_staleTime := None; opt_retry := None |}))
    [ {| trig := mounted; age := None; failures := 0 |};
      {| trig := interval_tick; age := Some 5000%Z; failures := 0 |} ]
  = [].
Proof. reflexivity. Qed.

Example with_taskId :
  calls (useTaskChildren (Some "t1") None)
    [ {| trig := mounted; age := None; failures := 0 |} ]
  = [getChildren (Some "t1")]
  ∧ staleTime (useTaskChildren (Some "t1") None) = 10000%Z
  ∧ retry (useTaskChildren (Some "t1") None) = Number 2.
Proof. done. Qed.

(** Fresh data is not fetched again on refocus; stale data is. *)
Example fresh_then_stale :
  calls (useTaskChildren (Some "t1") None)
    [ {| trig := window_focus; age := Some 9999%Z; failures := 0 |};
      {| trig := window_focus; age := Some 10000%Z; failures := 0 |} ]
  = [getChildren (Some "t1")].
Proof. reflexivity. Qed.

(** A fetch that keeps failing runs the query function three times with
the default [retry], once with [retry: false]. *)
Example retried :
  calls (useTaskChildren (Some "t1") None)
    [ {| trig := mounted; age := None; failures := 7 |} ]
  = [getChildren (Some "t1"); getChildren (Some "t1");
     getChildren (Some "t1")]
  ∧ calls (useTaskChildren (Some "t1")
             (Some {| opt_enabled := None; opt_refetchInterval := None;
                      opt_staleTime := None; opt_retry := Some JsFalse |}))
      [ {| trig := mounted; age := None; failures := 7 |} ]
    = [getChildren (Some "t1")].
Proof. split; reflexivity. Qed.

(** With a [refetchInterval], every tick fetches; without one, none. *)
Example polled :
  let ticks :=
    [ {| trig := interval_tick; age := Some 5000%Z; failures := 0 |};
      {| trig := interval_tick; age := Some 5000%Z; failures := 0 |} ] in
  calls (useTaskChildren (Some "t1")
           (Some {| opt_enabled := None;
                    opt_refetchInterval := Some (Number 5000);
                    opt_staleTime := None; opt_retry := None |})) ticks
  = [getChildren (Some "t1"); getChildren (Some "t1")]
  ∧ calls (useTaskChildren (Some "t1") None) ticks = [].
Proof. split; reflexivity. Qed.

(** The retry button of the dialog calls [refetchChildren]: with an empty
[taskId] the children query is disabled, and the click still asks for the
children of the empty id. *)
Example retry_click_empty_taskId :
  enabled (Dialog.children_query "") = false
  ∧ Dialog.retry_click_calls "" None 0 = [getChildren (Some "")].
Proof. split; reflexivity. Qed.

(** The dialog: a child reported by both queries is listed once, where it
first appeared and as the children query has it. *)
Example child_listed_once :
  let p := {| id := "p"; title := "parent"; description := None |} in
  let a := {| id := "a"; title := "stale"; description := None |} in
  let a' := {| id := "a"; title := "fresh"; description := Some "d" |} in
  let b := {| id := "b"; title := "other"; description := None |} in
  relatedTasks (Some {| parent_task := Some p; children := [a; b] |})
    (Some [a'])
  = [p; a'; b].
Proof. reflexivity. Qed.

Example nothing_loaded : relatedTasks None None = [].
Proof. reflexivity. Qed.
End Examples.


(** * Further properties of the migration *)

Section WhenItApplies.
Import Sqlite Migration Applies.

Lemma pairwise_ok_unphased rows :
  Forall unphased rows → pairwise_ok ux_tasks_parent_phase rows.
Proof.
  intros Hrows i j r1 r2 _ H1 _.
  apply not_true_is_false. intros (Hp & Hk & _)%conflicts_ux.
  rewrite Forall_forall in Hrows.
  destruct (Hrows r1 (list_elem_of_lookup_2 _ _ _ H1)); done.
Qed.

Lemma migrated_row_unphased r : unphased (migrated_row r).
Proof.
  left. unfold migrated_row.
  by rewrite cell_insert_ne, cell_insert_eq.
Qed.

(** A [CREATE INDEX IF NOT EXISTS] over columns the table has succeeds when
no table has the name and the rows do not conflict on it. *)
Lemma create_index_succeeds u n t cols w d tb :
  db_tables d !! t = Some tb →
  db_tables d !! n = None →
  missing_column tb (cols ++ from_option expr_cols [] w) = None →
  (u = true → pairwise_ok (IndexDef n t u cols w) (tbl_rows tb)) →
  ∃ d', create_index u true n t cols w d = Ok d'
        ∧ db_tables d' = db_tables d.
Proof.
  intros Htb Hn Hm Hu. unfold create_index, lookup_table. rewrite Htb. simpl.
  rewrite bool_decide_eq_false_2 by (rewrite Hn; by intros [? ?]).
  destruct (index_exists n d); [by eexists|]. rewrite Hm.
  destruct u; simpl; [|by eexists].
  rewrite (proj2 (rows_unique_pairwise _ _)) by by apply Hu.
  by eexists.
Qed.

Lemma has_column_false_names c tb :
  has_column c tb = false ↔ Forall (fun cd => col_name cd ≠ c) (tbl_cols tb).
Proof.
  rewrite Forall_forall. split.
  - intros H cd Hcd E. rewrite (proj2 (has_column_true c tb)) in H; [done|eauto].
  - intros H. apply not_true_is_false.
    intros (cd & Hcd & E)%has_column_true. by apply (H cd).
Qed.

Lemma ret_bind {A B} (a : A) (k : A → result B) : Ok a ≫= k = k a.
Proof. done. Qed.

Lemma add_column_succeeds t c d tb :
  db_tables d !! t = Some tb →
  has_column (col_name c) tb = false →
  (col_notnull c = true → is_null (default_value c) = false) →
  alter_table_add_column t c d
  = Ok (Db (<[t := Table (tbl_cols tb ++ [c])
                    (insert (col_name c) (default_value c) <$> tbl_rows tb)]>
              (db_tables d))
           (db_indexes d)).
Proof.
  intros Htb Hc Hn. unfold alter_table_add_column, lookup_table.
  rewrite Htb. simpl. rewrite Hc.
  destruct (col_notnull c); simpl; [|done]. by rewrite Hn.
Qed.

Lemma has_column_snoc c tb cd rows :
  has_column c tb = false → col_name cd ≠ c →
  has_column c (Table (tbl_cols tb ++ [cd]) rows) = false.
Proof.
  intros Hc Hne. rewrite (has_column_app _ _ _ _ (tbl_rows tb)).
  destruct tb as [cols rows0]. simpl in *. rewrite Hc.
  unfold has_column. simpl. by rewrite bool_decide_eq_false_2.
Qed.

(** On a table without the three columns the three [ADD COLUMN]s go
through. *)
Lemma run_add_columns_succeeds d0 tb0 :
  db_tables d0 !! "tasks" = Some tb0 →
  Forall (fun c => has_column c tb0 = false) new_columns →
  ∃ d, run add_columns d0 = Ok d
       ∧ db_tables d !! "tasks"
         = Some (Table (tbl_cols tb0 ++ [track; parent_task_id; phase_key])
                   (migrated_row <$> tbl_rows tb0))
       ∧ ∀ n, n ≠ "tasks" → db_tables d !! n = db_tables d0 !! n.
Proof.
  intros Htb0 Hcols.
  apply Forall_cons in Hcols as [C1 Hcols].
  apply Forall_cons in Hcols as [C2 Hcols].
  apply Forall_cons in Hcols as [C3 _].
  unfold add_columns, run, exec.
  rewrite (add_column_succeeds _ track _ tb0), ret_bind by done.
  erewrite (add_column_succeeds _ parent_task_id), ret_bind;
    [|apply lookup_insert_eq|by apply has_column_snoc|done].
  erewrite (add_column_succeeds _ phase_key), ret_bind;
    [|apply lookup_insert_eq|by repeat apply has_column_snoc|done].
  eexists. split; [done|]. simpl. split.
  - rewrite lookup_insert_eq. f_equal. f_equal.
    + by rewrite <- !app_assoc.
    + rewrite <- !list_fmap_compose. done.
  - intros n Hn. by rewrite !lookup_insert_ne.
Qed.

(** An index over the new columns finds them in the migrated table. *)
Lemma missing_new_columns cols0 rows cs :
  forallb (fun c => bool_decide (c ∈ new_columns)) cs = true →
  missing_column (Table (cols0 ++ [track; parent_task_id; phase_key]) rows) cs
  = None.
Proof.
  rewrite forallb_forall. intros Hsub.
  unfold missing_column. apply find_None. intros c Hc.
  apply negb_false_iff, has_column_true. simpl.
  apply list_elem_of_In, Hsub, bool_decide_eq_true in Hc.
  apply elem_of_cons in Hc as [->|Hc]; [exists track|];
    [|apply elem_of_cons in Hc as [->|Hc]; [exists parent_task_id|]];
    [| |apply list_elem_of_singleton in Hc as ->; exists phase_key];
    (split; [|done]); apply elem_of_app; right.
  - by left.
  - right. by left.
  - right. right. by left.
Qed.

(** X1. The migration succeeds on exactly the stores that have a [tasks]
table without the three columns and no table named like one of the three
indexes: nothing in the rows stored can make it fail.  Without a [tasks]
table it fails at its first statement. *)
Theorem migration_applies d0 :
  (is_ok (run migration d0) = true ↔ migratable d0)
  ∧ (db_tables d0 !! "tasks" = None →
     run migration d0 = Err (NoSuchTable "tasks")).
Proof.
  split; [split|].
  - destruct (run migration d0) as [d1|] eqn:Hrun; [intros _|done].
    unfold migration in Hrun. rewrite run_app in Hrun.
    apply bind_Ok in Hrun as (d & Hc & Hi).
    apply run_add_columns in Hc as (tb0 & Htb0 & Hnames & Htbs & _).
    exists tb0. split_and!; [done| |].
    + rewrite Forall_forall in Hnames.
      repeat constructor; apply has_column_false_names, Forall_forall;
        intros cd Hcd E; apply (Hnames cd Hcd); rewrite E; set_solver.
    + pose proof (run_create_indexes_tables _ _ Hi) as Ht.
      apply run_create_indexes_names in Hi as [_ Hi].
      eapply Forall_impl; [exact Hi|]. simpl. intros n [Hn _].
      rewrite Ht, Htbs in Hn.
      destruct (decide (n = "tasks")) as [->|Hne].
      * by rewrite lookup_insert_eq in Hn.
      * by rewrite lookup_insert_ne in Hn.
  - intros (tb0 & Htb0 & Hcols & Hixs).
    destruct (run_add_columns_succeeds d0 tb0 Htb0 Hcols)
      as (d & Hadd & Htb & Hothers).
    unfold migration. rewrite run_app, Hadd. simpl.
    apply Forall_cons in Hixs as [N1 Hixs].
    apply Forall_cons in Hixs as [N2 Hixs].
    apply Forall_cons in Hixs as [N3 _].
    rewrite <- Hothers in N1, N2, N3 by done.
    destruct (create_index_succeeds false "idx_tasks_parent_task_id" "tasks"
                ["parent_task_id"] None d _ Htb N1) as (d1 & -> & T1);
      [by apply missing_new_columns|done|]. simpl.
    rewrite <- T1 in Htb, N2, N3.
    destruct (create_index_succeeds false "idx_tasks_track" "tasks"
                ["track"] None d1 _ Htb N2) as (d2 & -> & T2);
      [by apply missing_new_columns|done|]. simpl.
    rewrite <- T2 in Htb, N3.
    destruct (create_index_succeeds true "ux_tasks_parent_phase" "tasks"
                ["parent_task_id"; "phase_key"]
                (Some (And (IsNotNull "parent_task_id")
                         (IsNotNull "phase_key"))) d2 _ Htb N3)
      as (d3 & -> & T3); [by apply missing_new_columns| |done].
    intros _. simpl. apply pairwise_ok_unphased, Forall_fmap, Forall_true.
    apply migrated_row_unphased.
  - intros Hno. unfold migration, add_columns. simpl.
    unfold alter_table_add_column, lookup_table. by rewrite Hno.
Qed.
End WhenItApplies.

Section Additive.
Import Sqlite Migration Applies.

Lemma create_index_prefix u n t cols w d d' :
  create_index u true n t cols w d = Ok d' →
  db_indexes d `prefix_of` db_indexes d'.
Proof.
  intros (tb & _ & _ & _ & [[_ ->]|(_ & _ & _ & ->)])%create_index_Ok.
  - done.
  - by apply prefix_app_r.
Qed.

Lemma run_create_indexes_prefix d d' :
  run create_indexes d = Ok d' → db_indexes d `prefix_of` db_indexes d'.
Proof.
  unfold create_indexes. simpl. intros H.
  apply bind_Ok in H as (d1 & H1%create_index_prefix & H).
  apply bind_Ok in H as (d2 & H2%create_index_prefix & H).
  apply bind_Ok in H as (d3 & H3%create_index_prefix & [= <-]).
  by repeat (etrans; [eassumption|]).
Qed.

Lemma migrated_row_lookup r c :
  c ∉ new_columns → migrated_row r !! c = r !! c.
Proof.
  intros Hc. unfold migrated_row.
  rewrite !lookup_insert_ne; [done|intros <-; apply Hc..].
  - by left.
  - right. by left.
  - right. right. by left.
Qed.

(** X2. The migration only adds.  The other tables are as they were; the
indexes that were in the schema are still there, in front of the new
ones; [tasks] has its old columns, then the three new ones; and it holds
the same rows in the same order, each with every old cell unchanged and
with ['quick'], NULL and NULL in the new columns. *)
Theorem migration_additive d0 d1 :
  run migration d0 = Ok d1 →
  (∀ t, t ≠ "tasks" → db_tables d1 !! t = db_tables d0 !! t)
  ∧ db_indexes d0 `prefix_of` db_indexes d1
  ∧ column_names "tasks" d1 = column_names "tasks" d0 ++ new_columns
  ∧ select_all "tasks" d1 = migrated_row <$> select_all "tasks" d0
  ∧ ∀ r, (∀ c, c ∉ new_columns → migrated_row r !! c = r !! c)
         ∧ migrated_row r !! "track" = Some (VText "quick")
         ∧ migrated_row r !! "parent_task_id" = Some VNull
         ∧ migrated_row r !! "phase_key" = Some VNull.
Proof.
  unfold migration. rewrite run_app. intros (d & Hc & Hi)%bind_Ok.
  apply run_add_columns in Hc as (tb0 & Htb0 & _ & Htbs & Hixs).
  pose proof (run_create_indexes_tables _ _ Hi) as Ht.
  apply run_create_indexes_prefix in Hi. rewrite Hixs in Hi.
  split_and!; [|done|..].
  - intros t Hne. by rewrite Ht, Htbs, lookup_insert_ne.
  - unfold column_names.
    rewrite Ht, Htbs, lookup_insert_eq, Htb0. simpl. by rewrite map_app.
  - unfold select_all. by rewrite Ht, Htbs, lookup_insert_eq, Htb0.
  - intros r. split_and!; [apply migrated_row_lookup|..]; unfold migrated_row.
    + by rewrite 2!lookup_insert_ne, lookup_insert_eq.
    + by rewrite lookup_insert_ne, lookup_insert_eq.
    + by rewrite lookup_insert_eq.
Qed.

Lemma migration_additive_witness :
  run migration Example.base = Ok Example.migrated
  ∧ db_indexes Example.base `prefix_of` db_indexes Example.migrated
  ∧ select_all "tasks" Example.migrated
    = migrated_row <$> select_all "tasks" Example.base.
Proof.
  split; [vm_compute; reflexivity|].
  destruct (migration_additive Example.base Example.migrated)
    as (_ & Hix & _ & Hrows & _); [vm_compute; reflexivity|done].
Defined.
End Additive.

(** * Further properties of the phase index *)

Section PhaseIndex.
Import Sqlite Migration.

Lemma unique_ok_false ix rows r :
  unique_ok ix rows r = false → ∃ r', r' ∈ rows ∧ conflicts ix r' r = true.
Proof.
  unfold unique_ok. induction rows as [|r0 rows IH]; simpl; [done|].
  destruct (conflicts ix r0 r) eqn:E; simpl.
  - intros _. exists r0. split; [by left|done].
  - intros (r' & ? & ?)%IH. exists r'. split; [by right|done].
Qed.

(** The state of the [tasks] table in a store reached by writes after the
migration. *)
Lemma migrated_tasks d0 d1 ws :
  unmigrated d0 → run migration d0 = Ok d1 →
  ∃ tb, db_tables (apply_writes ws d1) !! "tasks" = Some tb
        ∧ workflow_columns tb
        ∧ ux_tasks_parent_phase ∈ db_indexes (apply_writes ws d1)
        ∧ (∀ ix, ix ∈ db_indexes (apply_writes ws d1) →
                 idx_name ix = "ux_tasks_parent_phase" →
                 ix = ux_tasks_parent_phase)
        ∧ pairwise_ok ux_tasks_parent_phase (tbl_rows tb).
Proof.
  intros Hfresh Hrun.
  assert (columns_added (apply_writes ws d1)) as (tb & Htb & Hcols)
    by by eapply columns_added_apply_writes, run_migration_columns.
  assert (phase_indexed (apply_writes ws d1)) as (Hin & Hname & Hrows)
    by by eapply phase_indexed_apply_writes, run_migration_index.
  exists tb. split_and!; try done. by apply Hrows.
Qed.

(** An insert turned away by the unique index of the migration names a
slot that a stored row holds. *)
Lemma insert_violation_slot d a :
  columns_added d → phase_indexed d →
  insert_into "tasks" a d = Err (UniqueViolation "ux_tasks_parent_phase") →
  ∃ r, r ∈ select_all "tasks" d ∧ same_phase_slot r a.
Proof.
  intros (tb & Htb & Hcols) (_ & Hname & _) Herr.
  apply insert_into_unique_violation
    in Herr as (tb' & ix & Htb' & [Hin _]%elem_of_indexes_of & Hn & _ & Hbad).
  assert (tb' = tb) as -> by congruence.
  rewrite (Hname ix Hin Hn) in Hbad.
  apply unique_ok_false in Hbad as (r & Hr & Hs%conflicts_ux).
  exists r. unfold select_all. rewrite Htb. split; [done|].
  destruct (build_row_workflow tb a Hcols) as (_ & Hp & Hk).
  unfold same_phase_slot in *. by rewrite <- Hp, <- Hk.
Qed.

(** X3. In every store reached by writes after the migration, an insert
fails with the violation of [ux_tasks_parent_phase] only if a stored row
holds the very slot the new task names: a different phase under the same
parent, or the same phase under another parent, is never turned away by
the index. *)
Theorem slot_violation_only_if_taken d0 d1 ws a :
  unmigrated d0 →
  run migration d0 = Ok d1 →
  let d := apply_writes ws d1 in
  insert_into "tasks" a d = Err (UniqueViolation "ux_tasks_parent_phase") →
  ∃ r, r ∈ select_all "tasks" d ∧ same_phase_slot r a.
Proof.
  intros Hfresh Hrun d Herr. apply insert_violation_slot; [| |done].
  - by eapply columns_added_apply_writes, run_migration_columns.
  - by eapply phase_indexed_apply_writes, run_migration_index.
Qed.

Lemma slot_violation_only_if_taken_witness :
  ∃ r, r ∈ select_all "tasks" Example.store
       ∧ same_phase_slot r (Example.child x04 "D" x01 "design").
Proof.
  apply (slot_violation_only_if_taken Example.base Example.migrated
           Example.family).
  - reflexivity.
  - vm_compute; reflexivity.
  - vm_compute; reflexivity.
Defined.

(** An update that fails on a unique index fails on an index of the table
that the new row violates against the other rows. *)
Lemma update_row_unique_violation t i a d n :
  update_row t i a d = Err (UniqueViolation n) →
  ∃ tb old ix, db_tables d !! t = Some tb
    ∧ tbl_rows tb !! i = Some old
    ∧ ix ∈ indexes_of t d ∧ idx_name ix = n ∧ idx_unique ix = true
    ∧ unique_ok ix (delete i (tbl_rows tb)) (a ∪ old) = false.
Proof.
  unfold update_row, lookup_table. intros H.
  destruct (db_tables d !! t) as [tb|]; simpl in H; [|done].
  apply bind_Err in H as [H|([] & _ & H)].
  { unfold check_columns in H. by destruct (missing_column _ _). }
  destruct (tbl_rows tb !! i) as [old|] eqn:Hi; [|done].
  apply bind_Err in H as [H|([] & _ & H)].
  { by destruct (check_not_null_result t (tbl_cols tb) (a ∪ old))
      as [E|[c E]]; rewrite E in H. }
  apply bind_Err in H as [H|([] & _ & H)].
  - apply check_unique_Err in H as (ix & Hin & Hu & Hbad & [= ->]).
    by exists tb, old, ix.
  - apply bind_Err in H as [H|([] & _ & H)]; [|done].
    unfold check_fk_all in H. by destruct (forallb _ _).
Qed.

(** X4. In every store reached by writes after the migration, an update
that would put a row in the phase slot another stored row holds is
rejected with a constraint violation: the index guards updates of
[parent_task_id] and [phase_key] as it guards inserts. *)
Theorem update_into_taken_slot_rejected d0 d1 ws i a old :
  unmigrated d0 →
  run migration d0 = Ok d1 →
  let d := apply_writes ws d1 in
  select_all "tasks" d !! i = Some old →
  (∀ c, is_Some (a !! c) → c ∈ column_names "tasks" d) →
  (∃ j r, j ≠ i ∧ select_all "tasks" d !! j = Some r
          ∧ same_phase_slot r (a ∪ old)) →
  (∃ e, update_row "tasks" i a d = Err e ∧ is_constraint_violation e = true)
  ∧ apply_write d (Update "tasks" i a) = d.
Proof.
  intros Hfresh Hrun d Hold Ha (j & r & Hji & Hr & Hs).
  destruct (migrated_tasks d0 d1 ws Hfresh Hrun)
    as (tb & Htb & _ & Hin & _ & _). fold d in Htb, Hin.
  unfold select_all in Hold, Hr. rewrite Htb in Hold, Hr.
  assert (∃ e, update_row "tasks" i a d = Err e
               ∧ is_constraint_violation e = true) as (e & He & Hv).
  { unfold update_row, lookup_table. rewrite Htb. simpl.
    rewrite (proj2 (check_columns_Ok "tasks" tb a))
      by (intros c Hc; eapply has_column_names; eauto).
    simpl. rewrite Hold.
    destruct (check_not_null_result "tasks" (tbl_cols tb) (a ∪ old))
      as [->|[c ->]]; simpl; [|eauto].
    destruct (check_unique_result (indexes_of "tasks" d)
                (delete i (tbl_rows tb)) (a ∪ old)) as [E|[n ->]];
      simpl; [|eauto].
    rewrite check_unique_Ok in E.
    specialize (E ux_tasks_parent_phase
                  ltac:(by apply elem_of_indexes_of) eq_refl).
    rewrite unique_ok_true in E.
    apply conflicts_ux in Hs.
    rewrite (E r) in Hs; [done|]. by eapply elem_of_delete_other. }
  split; [eauto|]. unfold apply_write. simpl. by rewrite He.
Qed.

Lemma update_into_taken_slot_rejected_witness :
  let d := Example.store in
  (∃ e, update_row "tasks" 3 {[ "phase_key" := VText "design" ]} d = Err e
        ∧ is_constraint_violation e = true)
  ∧ apply_write d (Update "tasks" 3 {[ "phase_key" := VText "design" ]}) = d.
Proof.
  apply (update_into_taken_slot_rejected Example.base Example.migrated
           Example.family 3 {[ "phase_key" := VText "design" ]}
           (default ∅ (select_all "tasks" Example.store !! 3))).
  - reflexivity.
  - vm_compute; reflexivity.
  - vm_compute; reflexivity.
  - intros c [v Hv]. apply lookup_singleton_Some in Hv as [<- _].
    apply (bool_decide_unpack _). vm_compute. exact I.
  - exists 2, (default ∅ (select_all "tasks" Example.store !! 2)).
    split; [done|]. split; [vm_compute; reflexivity|].
    unfold same_phase_slot. split_and!; vm_compute; (discriminate || reflexivity).
Defined.

(** X5. In every store reached by writes after the migration, an update
fails with the violation of [ux_tasks_parent_phase] only if some other
stored row holds the slot of the updated row: a row is never in the way
of its own update, so the other fields of a phased task can be changed
freely. *)
Theorem update_blocked_only_by_other_row d0 d1 ws i a old :
  unmigrated d0 →
  run migration d0 = Ok d1 →
  let d := apply_writes ws d1 in
  select_all "tasks" d !! i = Some old →
  update_row "tasks" i a d = Err (UniqueViolation "ux_tasks_parent_phase") →
  ∃ j r, j ≠ i ∧ select_all "tasks" d !! j = Some r
         ∧ same_phase_slot r (a ∪ old).
Proof.
  intros Hfresh Hrun d Hold Herr.
  destruct (migrated_tasks d0 d1 ws Hfresh Hrun)
    as (tb & Htb & _ & _ & Hname & _). fold d in Htb, Hname.
  unfold select_all in *. rewrite Htb in *.
  apply update_row_unique_violation in Herr
    as (tb' & old' & ix & Htb' & Hold' & [Hin _]%elem_of_indexes_of & Hn & _
        & Hbad).
  assert (tb' = tb) as -> by congruence.
  assert (old' = old) as -> by congruence.
  rewrite (Hname ix Hin Hn) in Hbad.
  apply unique_ok_false in Hbad as (r & Hr & Hs%conflicts_ux).
  apply list_elem_of_lookup in Hr as [j Hj].
  apply lookup_delete_Some in Hj as (j' & Hne & Hj' & _).
  by exists j', r.
Qed.

Lemma update_blocked_only_by_other_row_witness :
  ∃ j r, j ≠ 3 ∧ select_all "tasks" Example.store !! j = Some r
         ∧ same_phase_slot r
             ({[ "phase_key" := VText "design" ]}
              ∪ default ∅ (select_all "tasks" Example.store !! 3)).
Proof.
  apply (update_blocked_only_by_other_row Example.base Example.migrated
           Example.family 3).
  - reflexivity.
  - vm_compute; reflexivity.
  - vm_compute; reflexivity.
  - vm_compute; reflexivity.
Defined.

(** X6. In every store reached by writes after the migration, deleting a
task removes its row and nothing else, and frees its phase slot: an
insert for that slot is no longer turned away by [ux_tasks_parent_phase]. *)
Theorem delete_frees_slot d0 d1 ws i r d' :
  unmigrated d0 →
  run migration d0 = Ok d1 →
  let d := apply_writes ws d1 in
  select_all "tasks" d !! i = Some r →
  delete_row "tasks" i d = Ok d' →
  select_all "tasks" d' = delete i (select_all "tasks" d)
  ∧ ∀ a, same_phase_slot r a →
         insert_into "tasks" a d'
         ≠ Err (UniqueViolation "ux_tasks_parent_phase").
Proof.
  intros Hfresh Hrun d Hr Hdel.
  assert (columns_added d) as Hc
    by by eapply columns_added_apply_writes, run_migration_columns.
  assert (phase_indexed d) as Hi
    by by eapply phase_indexed_apply_writes, run_migration_index.
  assert (d' = apply_write d (Delete "tasks" i)) as Hd'
    by (unfold apply_write; simpl; by rewrite Hdel).
  assert (select_all "tasks" d' = delete i (select_all "tasks" d)) as Hrows.
  { destruct Hc as (tb & Htb & _). unfold select_all in *.
    rewrite Htb in *. unfold delete_row, lookup_table in Hdel.
    rewrite Htb in Hdel. simpl in Hdel. rewrite Hr in Hdel.
    apply bind_Ok in Hdel as ([] & _ & [= <-]). unfold set_rows. simpl.
    by rewrite lookup_insert_eq. }
  split; [done|]. intros a Ha Herr.
  apply insert_violation_slot in Herr as (r' & Hr' & Hs);
    [|subst d'; by apply columns_added_apply_write
     |subst d'; by apply phase_indexed_apply_write].
  rewrite Hrows in Hr'. apply list_elem_of_lookup in Hr' as [j Hj].
  apply lookup_delete_Some in Hj as (j' & Hne & Hj' & _).
  destruct Hi as (_ & _ & Hpw), Hc as (tb & Htb & _).
  specialize (Hpw tb Htb).
  unfold select_all in Hr, Hj'. rewrite Htb in Hr, Hj'.
  assert (conflicts ux_tasks_parent_phase r' r = true) as Hcf.
  { apply conflicts_ux. destruct Hs as (? & ? & Ep & Ek), Ha as (_ & _ & Ep' & Ek').
    split_and!; congruence. }
  by rewrite (Hpw j' i r' r) in Hcf.
Qed.

Lemma delete_frees_slot_witness :
  let d' := apply_writes (Example.family ++ [Delete "tasks" 2]) Example.migrated in
  select_all "tasks" d' = delete 2 (select_all "tasks" Example.store)
  ∧ ∀ a, same_phase_slot
           (default ∅ (select_all "tasks" Example.store !! 2)) a →
         insert_into "tasks" a d'
         ≠ Err (UniqueViolation "ux_tasks_parent_phase").
Proof.
  apply (delete_frees_slot Example.base Example.migrated Example.family 2).
  - reflexivity.
  - vm_compute; reflexivity.
  - vm_compute; reflexivity.
  - vm_compute; reflexivity.
Defined.
End PhaseIndex.

(** * The two plain indexes *)

Section PlainIndexes.
Import Sqlite Migration.

Lemma check_fk_all_tables d d' :
  db_tables d = db_tables d' → check_fk_all d = check_fk_all d'.
Proof.
  intros E. unfold check_fk_all, table_fk_ok, fk_ok, parent_exists.
  by rewrite E.
Qed.

(** Dropping an index that is not unique changes the result of no write. *)
Lemma exec_write_drop_plain n d w :
  (∀ ix, ix ∈ db_indexes d → idx_name ix = n → idx_unique ix = false) →
  exec_write w (drop_index n d) = drop_index n <$> exec_write w d.
Proof.
  intros Hplain.
  assert (∀ t rows r,
            check_unique (indexes_of t (drop_index n d)) rows r
            = check_unique (indexes_of t d) rows r) as Hcu.
  { intros t rows r. rewrite indexes_of_drop_index.
    apply check_unique_filter.
    intros ix [Hin _]%elem_of_indexes_of Hn%dec_stable Hu.
    by rewrite (Hplain ix Hin Hn) in Hu. }
  destruct w as [t a|t i a|t i]; simpl.
  - unfold insert_into, lookup_table. simpl.
    destruct (db_tables d !! t) as [tb|]; simpl; [|done].
    destruct (check_columns t tb a) as [[]|]; simpl; [|done].
    destruct (check_not_null _ _ _) as [[]|]; simpl; [|done].
    rewrite Hcu. destruct (check_unique _ _ _) as [[]|]; simpl; [|done].
    rewrite set_rows_drop_index.
    rewrite (check_fk_tables (drop_index _ _)
               (set_rows t tb (tbl_rows tb ++ [build_row (tbl_cols tb) a]) d))
      by done.
    by destruct (check_fk _ _ _) as [[]|].
  - unfold update_row, lookup_table. simpl.
    destruct (db_tables d !! t) as [tb|]; simpl; [|done].
    destruct (check_columns t tb a) as [[]|]; simpl; [|done].
    destruct (tbl_rows tb !! i) as [old|]; [|done].
    destruct (check_not_null _ _ _) as [[]|]; simpl; [|done].
    rewrite Hcu. destruct (check_unique _ _ _) as [[]|]; simpl; [|done].
    rewrite set_rows_drop_index.
    rewrite (check_fk_all_tables (drop_index _ _)
               (set_rows t tb (<[i := a ∪ old]> (tbl_rows tb)) d)) by done.
    by destruct (check_fk_all _) as [[]|].
  - unfold delete_row, lookup_table. simpl.
    destruct (db_tables d !! t) as [tb|]; simpl; [|done].
    destruct (tbl_rows tb !! i) as [old|]; [|done].
    rewrite set_rows_drop_index.
    rewrite (check_fk_all_tables (drop_index _ _)
               (set_rows t tb (delete i (tbl_rows tb)) d)) by done.
    by destruct (check_fk_all _) as [[]|].
Qed.

(** X7. The indexes [idx_tasks_parent_task_id] and [idx_tasks_track] that
the migration creates are there for lookups only: in every store reached
by writes after the migration, every insert, update and delete has the
result it has with the index dropped, so neither index ever rejects a
write; any number of tasks may share a parent or a track. *)
Theorem plain_indexes_never_reject d0 d1 ws n w :
  n = "idx_tasks_parent_task_id" ∨ n = "idx_tasks_track" →
  index_exists n d0 = false →
  run migration d0 = Ok d1 →
  let d := apply_writes ws d1 in
  exec_write w (drop_index n d) = drop_index n <$> exec_write w d.
Proof.
  intros Hn Hfresh Hrun d. apply exec_write_drop_plain.
  unfold d. rewrite (proj1 (apply_writes_schema ws d1)).
  intros ix Hin Hname.
  unfold migration in Hrun. rewrite run_app in Hrun.
  apply bind_Ok in Hrun as (dc & Hc & Hi).
  apply run_add_columns in Hc as (_ & _ & _ & _ & Hixs).
  destruct (run_create_indexes_indexes _ _ ix Hi Hin) as [Hold|[Hu|Hux]].
  - rewrite Hixs in Hold.
    rewrite (proj2 (index_exists_true n d0)) in Hfresh; [done|eauto].
  - done.
  - rewrite Hux in Hname. by destruct Hn as [-> | ->].
Qed.

Lemma plain_indexes_never_reject_witness :
  let w := Insert "tasks"
             (<["parent_task_id" := Example.uuid x01]> (Example.task x05 "E")) in
  exec_write w (drop_index "idx_tasks_parent_task_id" Example.store)
  = drop_index "idx_tasks_parent_task_id" <$> exec_write w Example.store.
Proof.
  apply (plain_indexes_never_reject Example.base Example.migrated
           Example.family "idx_tasks_parent_task_id").
  - by left.
  - reflexivity.
  - vm_compute; reflexivity.
Defined.
End PlainIndexes.

(** * What an insert stores *)

Section ReadBack.
Import Sqlite Migration.

Lemma find_is_Some {A} (f : A → bool) (l : list A) :
  is_Some (find f l) ↔ existsb f l = true.
Proof.
  induction l as [|x l IH]; simpl.
  - split; [by intros [? ?]|done].
  - destruct (f x); simpl; [|done]. split; eauto.
Qed.

(** The built row has the columns of the table, no more and no fewer. *)
Lemma build_row_columns tb a c :
  is_Some (build_row (tbl_cols tb) a !! c) ↔ has_column c tb = true.
Proof.
  rewrite build_row_lookup_find, fmap_is_Some. apply find_is_Some.
Qed.

Lemma build_row_supplied tb a c v :
  has_column c tb = true → a !! c = Some v →
  build_row (tbl_cols tb) a !! c = Some v.
Proof.
  intros Hc Ha. rewrite build_row_lookup_find, Ha.
  apply find_is_Some in Hc as [cd ->]. done.
Qed.

Lemma column_names_has_column t d tb c :
  db_tables d !! t = Some tb →
  c ∈ column_names t d ↔ has_column c tb = true.
Proof.
  intros Htb. unfold column_names. rewrite Htb, has_column_true.
  rewrite list_elem_of_fmap. split.
  - intros (cd & -> & Hcd). eauto.
  - intros (cd & Hcd & <-). eauto.
Qed.

(** X8. In every store reached by writes after the migration, an accepted
insert puts one row at the end of [tasks] and changes nothing else; the
row reads back every value the insert supplied, as supplied (a [track]
other than ['quick'] included), NULL for [parent_task_id] and [phase_key]
when they were left out, and it has exactly the columns of the table. *)
Theorem insert_reads_back d0 d1 ws a d' :
  run migration d0 = Ok d1 →
  let d := apply_writes ws d1 in
  insert_into "tasks" a d = Ok d' →
  ∃ r, select_all "tasks" d' = select_all "tasks" d ++ [r]
       ∧ (∀ c v, a !! c = Some v → r !! c = Some v)
       ∧ (a !! "parent_task_id" = None → r !! "parent_task_id" = Some VNull)
       ∧ (a !! "phase_key" = None → r !! "phase_key" = Some VNull)
       ∧ (∀ c, is_Some (r !! c) ↔ c ∈ column_names "tasks" d)
       ∧ (∀ t, t ≠ "tasks" → select_all t d' = select_all t d)
       ∧ db_indexes d' = db_indexes d.
Proof.
  intros Hrun d Hins.
  assert (columns_added d) as (tb & Htb & Hw)
    by by eapply columns_added_apply_writes, run_migration_columns.
  apply insert_into_Ok in Hins as (tb' & Htb' & Hcc & _ & _ & _ & ->).
  assert (tb' = tb) as -> by congruence.
  exists (build_row (tbl_cols tb) a).
  destruct (build_row_workflow tb a Hw) as (_ & Hp & Hk).
  assert (∀ c, c = "parent_task_id" ∨ c = "phase_key" →
               cell (build_row (tbl_cols tb) a) c = cell a c →
               a !! c = None →
               build_row (tbl_cols tb) a !! c = Some VNull) as Hnull.
  { intros c Hc Hcell Hnone.
    destruct (slot_column_def tb c Hw Hc) as [Hhas _].
    apply (build_row_columns tb a c) in Hhas as [v Hv].
    unfold cell in Hcell. rewrite Hv, Hnone in Hcell. simpl in Hcell.
    by rewrite Hv, Hcell. }
  unfold select_all, set_rows. simpl. rewrite lookup_insert_eq, Htb. simpl.
  split_and!; try done.
  - intros c v Ha. apply build_row_supplied; [|done].
    apply (proj1 (check_columns_Ok _ _ _) Hcc). by rewrite Ha.
  - apply Hnull; [by left|done].
  - apply Hnull; [by right|done].
  - intros c. by rewrite build_row_columns, (column_names_has_column _ _ tb).
  - intros t Hne. by rewrite lookup_insert_ne.
Qed.

Lemma insert_reads_back_witness :
  let a := <["track" := VText "bmad"]> (Example.task x05 "E") in
  ∃ r, select_all "tasks"
         (apply_writes (Example.family ++ [Insert "tasks" a]) Example.migrated)
       = select_all "tasks" Example.store ++ [r]
       ∧ r !! "track" = Some (VText "bmad")
       ∧ r !! "parent_task_id" = Some VNull.
Proof.
  intros a.
  destruct (insert_reads_back Example.base Example.migrated Example.family a
              (apply_writes (Example.family ++ [Insert "tasks" a])
                 Example.migrated))
    as (r & Hrows & Hsup & Hp & _).
  - vm_compute; reflexivity.
  - vm_compute; reflexivity.
  - exists r. split; [exact Hrows|]. split; [by apply Hsup|by apply Hp].
Defined.
End ReadBack.

(** * The track is never NULL *)

Section TrackNotNull.
Import Sqlite Migration.

Lemma check_not_null_track tb (r : row) :
  workflow_columns tb → cell r "track" = VNull →
  ∃ c, check_not_null "tasks" (tbl_cols tb) r
       = Err (NotNullViolation "tasks" c).
Proof.
  intros [(cols0 & Hc & _) _] Hnull.
  destruct (check_not_null_result "tasks" (tbl_cols tb) r) as [Hok|?];
    [|done].
  rewrite check_not_null_Ok in Hok.
  specialize (Hok track). rewrite Hc in Hok. simpl in Hok.
  rewrite Hnull in Hok. discriminate Hok; [|done].
  apply elem_of_app. right. by left.
Qed.

(** X9. In every store reached by writes after the migration, a write that
sets [track] to NULL, be it an insert or an update, is rejected with a
[NOT NULL] violation: the default fills in for a track left out, not for
an explicit NULL. *)
Theorem null_track_rejected d0 d1 ws a :
  run migration d0 = Ok d1 →
  let d := apply_writes ws d1 in
  a !! "track" = Some VNull →
  (∀ c, is_Some (a !! c) → c ∈ column_names "tasks" d) →
  (∃ c, insert_into "tasks" a d = Err (NotNullViolation "tasks" c))
  ∧ ∀ i, is_Some (select_all "tasks" d !! i) →
         ∃ c, update_row "tasks" i a d = Err (NotNullViolation "tasks" c).
Proof.
  intros Hrun d Ha Hcols.
  assert (columns_added d) as (tb & Htb & Hw)
    by by eapply columns_added_apply_writes, run_migration_columns.
  assert (check_columns "tasks" tb a = Ok ()) as Hcc.
  { apply check_columns_Ok. intros c Hc. eapply has_column_names; eauto. }
  split.
  - unfold insert_into, lookup_table. rewrite Htb. simpl. rewrite Hcc. simpl.
    destruct (check_not_null_track tb (build_row (tbl_cols tb) a) Hw)
      as [c ->]; [|by exists c].
    unfold cell. destruct (build_row_workflow tb a Hw) as (-> & _).
    by rewrite Ha.
  - unfold select_all. rewrite Htb. intros i [old Hold].
    unfold update_row, lookup_table. rewrite Htb. simpl. rewrite Hcc. simpl.
    rewrite Hold.
    destruct (check_not_null_track tb (a ∪ old) Hw) as [c ->]; [|by exists c].
    unfold cell. by rewrite (lookup_union_Some_l _ _ _ _ Ha).
Qed.

Lemma null_track_rejected_witness :
  let a := <["track" := VNull]> (Example.task x05 "E") in
  (∃ c, insert_into "tasks" a Example.store
        = Err (NotNullViolation "tasks" c))
  ∧ ∀ i, is_Some (select_all "tasks" Example.store !! i) →
         ∃ c, update_row "tasks" i a Example.store
              = Err (NotNullViolation "tasks" c).
Proof.
  apply (null_track_rejected Example.base Example.migrated Example.family).
  - vm_compute; reflexivity.
  - reflexivity.
  - intros c [v Hv]. unfold Example.task in Hv.
    apply lookup_insert_Some in Hv as [[<- _]|[_ Hv]];
      [apply (bool_decide_unpack _); vm_compute; exact I|].
    apply lookup_insert_Some in Hv as [[<- _]|[_ Hv]];
      [apply (bool_decide_unpack _); vm_compute; exact I|].
    apply lookup_singleton_Some in Hv as [<- _].
    apply (bool_decide_unpack _). vm_compute. exact I.
Defined.
End TrackNotNull.

(** * What a race leaves in the store *)

Section RaceStore.
Import Sqlite Migration Writers.

Variables (d : db) (p k : value) (reqs : list row).
Hypothesis Hcols : columns_added d.
Hypothesis Hix : phase_indexed d.
Hypothesis Hp : p ≠ VNull.
Hypothesis Hk : k ≠ VNull.
Hypothesis Hreqs : ∀ a, a ∈ reqs →
  cell a "parent_task_id" = p ∧ cell a "phase_key" = k
  ∧ is_ok (insert_into "tasks" a d) = true.

(** Once a writer has been served, every rival is turned away. *)
Lemma race_rejects s a :
  race_inv d p k reqs s → outcomes s ≠ [] → a ∈ reqs →
  ∃ e, insert_into "tasks" a (store s) = Err e.
Proof.
  intros (_ & _ & [[_ Hnil]|(Hc & Hi & Hn & (r & Hr & Hrp & Hrk) & _)]) Hne Ha;
    [done|].
  destruct (Hreqs a Ha) as (Hpa & Hka & Hok).
  destruct Hc as (tb & Htb & Hw). destruct Hi as (Hin & _ & _).
  destruct (insert_into_conflict "tasks" a (store s) tb
              ux_tasks_parent_phase r) as (e & He & _); try done; [| | |eauto].
  - intros c Hc. rewrite Hn.
    destruct (insert_into "tasks" a d) as [d0|] eqn:E; [|done].
    apply insert_into_Ok in E as (tb0 & Htb0 & Hcc & _).
    unfold column_names. rewrite Htb0. apply list_elem_of_fmap.
    apply (proj1 (check_columns_Ok _ _ _) Hcc), has_column_true in Hc
      as (cd & ? & <-). eauto.
  - unfold select_all in Hr. by rewrite Htb in Hr.
  - apply conflicts_ux, same_phase_slot_build_row; [done|].
    unfold same_phase_slot. by rewrite Hrp, Hrk, Hpa, Hka.
Qed.

Lemma race_store_step s s' :
  race_inv d p k reqs s →
  (outcomes s = [] ∧ store s = d
   ∨ outcomes s ≠ [] ∧ ∃ a, a ∈ reqs ∧ insert_into "tasks" a d = Ok (store s)) →
  step s s' →
  outcomes s' ≠ [] ∧ ∃ a, a ∈ reqs ∧ insert_into "tasks" a d = Ok (store s').
Proof.
  intros Hinv Hst Hstep. destruct Hstep as [d' ws1 w ws2 log].
  destruct Hinv as (Hpend & Hrest). simpl in *.
  destruct (Hpend w) as (a & -> & Ha); [apply elem_of_app; right; left|].
  split; [by destruct log|].
  destruct Hst as [[-> ->]|[Hne (a0 & Ha0 & Hwin)]].
  - exists a. split; [done|]. unfold apply_write. simpl.
    destruct (Hreqs a Ha) as (_ & _ & Hok).
    by destruct (insert_into "tasks" a d).
  - exists a0. split; [done|].
    destruct (race_rejects (System d' (ws1 ++ Insert "tasks" a :: ws2) log) a)
      as [e He]; try done.
    unfold apply_write. simpl in *. by rewrite He.
Qed.
End RaceStore.

Section RaceStoreResult.
Import Sqlite Migration Writers.

(** X10. After a race of writers for one free phase slot, whatever the
order they were served in, the store is the one that the insert of one
of them makes of the initial store: one row more than before, holding the
contested slot, and no trace of the others. *)
Theorem race_stores_the_winner d0 d1 ws p k reqs s' :
  unmigrated d0 →
  run migration d0 = Ok d1 →
  let d := apply_writes ws d1 in
  p ≠ VNull → k ≠ VNull → reqs ≠ [] →
  Forall (fun a => cell a "parent_task_id" = p ∧ cell a "phase_key" = k
                   ∧ is_ok (insert_into "tasks" a d) = true) reqs →
  rtc step (System d (Insert "tasks" <$> reqs) []) s' →
  pending s' = [] →
  ∃ a r, a ∈ reqs
         ∧ insert_into "tasks" a d = Ok (store s')
         ∧ select_all "tasks" (store s') = select_all "tasks" d ++ [r]
         ∧ cell r "parent_task_id" = p ∧ cell r "phase_key" = k.
Proof.
  intros Hfresh Hrun d Hp Hk Hne Hreqs Hrun' Hend.
  assert (columns_added d) as Hcols
    by by eapply columns_added_apply_writes, run_migration_columns.
  assert (phase_indexed d) as Hix
    by by eapply phase_indexed_apply_writes, run_migration_index.
  rewrite Forall_forall in Hreqs.
  assert (race_inv d p k reqs s'
          ∧ (outcomes s' = [] ∧ store s' = d
             ∨ outcomes s' ≠ []
               ∧ ∃ a, a ∈ reqs ∧ insert_into "tasks" a d = Ok (store s')))
    as [(_ & Hlen & _) Hst].
  { eapply (rtc_ind_r (fun s => race_inv d p k reqs s
              ∧ (outcomes s = [] ∧ store s = d
                 ∨ outcomes s ≠ []
                   ∧ ∃ a, a ∈ reqs ∧ insert_into "tasks" a d = Ok (store s))));
      [| |exact Hrun'].
    - split; [by apply race_inv_init|by left].
    - intros s1 s2 _ Hstep [Hinv Hst]. split.
      + by eapply race_inv_step.
      + right. by apply (race_store_step d p k reqs Hp Hk Hreqs s1 s2). }
  rewrite Hend in Hlen. simpl in Hlen. rewrite Nat.add_0_r in Hlen.
  destruct Hst as [[Hnil _]|[_ (a & Ha & Hwin)]].
  { rewrite Hnil in Hlen. by destruct reqs. }
  destruct (Hreqs a Ha) as (Hpa & Hka & _).
  destruct (insert_into_rows a d (store s') Hcols Hwin)
    as (_ & r & Hrows & Hrp & Hrk).
  exists a, r. split_and!; try done; congruence.
Qed.

Lemma race_stores_the_winner_witness :
  let d := apply_writes [Insert "tasks" (Example.task x01 "A")] Example.migrated in
  ∃ a r, a ∈ Example.rivals
         ∧ insert_into "tasks" a d = Ok (store Example.race_end)
         ∧ select_all "tasks" (store Example.race_end)
           = select_all "tasks" d ++ [r]
         ∧ cell r "parent_task_id" = Example.uuid x01
         ∧ cell r "phase_key" = VText "design".
Proof.
  intros d.
  apply (race_stores_the_winner Example.base Example.migrated
           [Insert "tasks" (Example.task x01 "A")]
           (Example.uuid x01) (VText "design") Example.rivals).
  - reflexivity.
  - vm_compute; reflexivity.
  - discriminate.
  - discriminate.
  - discriminate.
  - repeat constructor; vm_compute; reflexivity.
  - eapply rtc_l.
    { apply (step_writer d
               [Insert "tasks" (Example.child x02 "B" x01 "design")]
               (Insert "tasks" (Example.child x03 "B'" x01 "design"))
               [Insert "tasks" (Example.child x04 "B''" x01 "design")] []). }
    eapply rtc_l.
    { apply (step_writer _ []
               (Insert "tasks" (Example.child x02 "B" x01 "design"))
               [Insert "tasks" (Example.child x04 "B''" x01 "design")]). }
    eapply rtc_l.
    { apply (step_writer _ []
               (Insert "tasks" (Example.child x04 "B''" x01 "design")) []). }
    apply rtc_refl.
  - reflexivity.
Defined.
End RaceStoreResult.

(** * Further properties of the client side *)

Section HookEnabled.
Import Frontend.

(** X11. The query of [useTaskChildren] is enabled exactly when [taskId] is
a non-empty string and the caller did not pass [enabled: false].  Whatever
sets a fetch off (a call of [refetch] included) and however often it is
retried, every run of the query function asks for the children of the
[taskId] the hook received, which is the one in the query key under which
the answer is cached; and one occasion makes at most one run more than the
[retry] option allows, three by default. *)
Theorem query_enabled_iff (taskId : option string) (opts : option Options) :
  let q := useTaskChildren taskId opts in
  (enabled q = true ↔
   (∃ s, taskId = Some s ∧ s ≠ "") ∧ opts ≫= opt_enabled ≠ Some false)
  ∧ (∀ os call, call ∈ calls q os →
                call = getChildren taskId ∧ (queryKey q).2 = taskId)
  ∧ (∀ o, (List.length (calls q [o]) ≤ S (retries (retry q)))%nat)
  ∧ (opts ≫= opt_retry = None → ∀ o, (List.length (calls q [o]) ≤ 3)%nat).
Proof.
  intros q.
  assert (∀ o, (List.length (calls q [o]) ≤ S (retries (retry q)))%nat) as Hlen.
  { intros o. rewrite calls_cons. unfold calls. simpl.
    rewrite app_nil_r. unfold fetch.
    destruct (starts_fetch q o); simpl; [|lia].
    rewrite length_replicate. unfold attempts. lia. }
  split_and!.
  - unfold q. simpl. rewrite andb_true_iff, truthy_Some. split.
    + intros [Ho Hs]. split; [done|]. intros E. by rewrite E in Ho.
    + intros [Hs Ho]. split; [|done].
      by destruct (opts ≫= opt_enabled) as [[]|].
  - by intros os call (o & _ & _ & ->)%elem_of_calls.
  - done.
  - intros Ho o. specialize (Hlen o). unfold q in Hlen. simpl in Hlen.
    rewrite Ho in Hlen. done.
Qed.
End HookEnabled.

Section Handlers.
Import Frontend Dialog.

(** X12. The create-subtask button is disabled exactly when its handler
would do nothing.  When it is enabled the handler hides the modal first
and then opens the task form, for the dialog's project and with the
attempt's id and branch; and its promise never rejects, whatever becomes
of the form. *)
Theorem create_subtask_guard projectId attempt form :
  (create_disabled projectId attempt = true ↔
   (handleCreateSubtask projectId attempt form).1 = [])
  ∧ (create_disabled projectId attempt = false →
     ∃ at_, attempt = Some at_
            ∧ (handleCreateSubtask projectId attempt form).1
              = [modal_hide;
                 openTaskForm projectId (workspace_id at_) (branch at_)])
  ∧ (handleCreateSubtask projectId attempt form).2 = fulfilled.
Proof.
  unfold create_disabled, handleCreateSubtask.
  destruct attempt as [at_|]; simpl.
  - rewrite orb_false_r. destruct (blank projectId); simpl.
    + split_and!; done.
    + split_and!; [split; done|eauto|by destruct form].
  - rewrite orb_true_r. split_and!; done.
Qed.
End Handlers.

Section RelatedTasksOrder.
Import Frontend.

(** The keys of the map, in its order: the ids fed in, each where it came
first. *)
Lemma set_each_keys ts :
  (set_each ts []).*1 = reverse (remove_dups (reverse (id <$> ts))).
Proof.
  induction ts as [|t ts IH] using rev_ind; [done|].
  rewrite set_each_app. simpl. rewrite Map_set_keys, IH.
  rewrite fmap_app, reverse_app. simpl.
  destruct (decide_rel elem_of (id t) (reverse (id <$> ts))) as [Hin|Hin].
  - rewrite decide_True; [done|].
    by rewrite elem_of_reverse, elem_of_remove_dups.
  - rewrite decide_False, reverse_cons; [done|].
    by rewrite elem_of_reverse, elem_of_remove_dups.
Qed.

Lemma set_each_key_id ts k v : (k, v) ∈ set_each ts [] → k = id v.
Proof. intros Hin. by apply set_each_spec in Hin as [? _]. Qed.

Lemma relatedTasks_ids relationships data :
  id <$> relatedTasks relationships data
  = reverse (remove_dups (reverse (id <$> sources relationships data))).
Proof.
  rewrite relatedTasks_sources, Map_values_ids, set_each_keys; [done|].
  apply set_each_key_id.
Qed.

(** X13. The rows of the dialog come in the order in which their ids first
appear among the tasks fed to the map (parent, [relationships.children],
[taskChildren]): a task reported again later changes the row of its id,
not the place of the row. *)
Theorem relatedTasks_order relationships data :
  id <$> relatedTasks relationships data
  = reverse (remove_dups (reverse (id <$> sources relationships data)))
  ∧ ∀ i j a b,
      (id <$> relatedTasks relationships data) !! i = Some a →
      (id <$> relatedTasks relationships data) !! j = Some b →
      i < j →
      ∃ i', (id <$> sources relationships data) !! i' = Some a
            ∧ ∀ j', (id <$> sources relationships data) !! j' = Some b →
                    i' < j'.
Proof.
  split; [apply relatedTasks_ids|].
  rewrite relatedTasks_sources.
  generalize (sources relationships data). intros ts.
  rewrite Map_values_ids by apply set_each_key_id.
  induction ts as [|t ts IH] using rev_ind.
  { intros i j a b H. by destruct i. }
  rewrite set_each_app. simpl. rewrite Map_set_keys, fmap_app. simpl.
  assert (∀ x, x ∈ (set_each ts []).*1 ↔ x ∈ id <$> ts) as Hmem.
  { intros x. by rewrite set_each_keys, elem_of_reverse, elem_of_remove_dups,
      elem_of_reverse. }
  intros i j a b Hi Hj Hij.
  assert ((set_each ts []).*1 !! i = Some a) as Hi'.
  { case_decide; [done|].
    apply lookup_app_Some in Hi as [?|[Hge Hi]]; [done|].
    apply lookup_app_Some in Hj as [Hj|[Hge' Hj]].
    - apply lookup_lt_Some in Hj. lia.
    - apply list_lookup_singleton_Some in Hi as [? _].
      apply list_lookup_singleton_Some in Hj as [? _]. lia. }
  destruct (decide ((set_each ts []).*1 !! j = Some b)) as [Hj'|Hj'].
  - destruct (IH i j a b Hi' Hj' Hij) as (i' & Hia & Hlt).
    exists i'. split; [by apply lookup_app_l_Some|].
    intros j' [Hb|[Hge _]]%lookup_app_Some; [by apply Hlt|].
    apply lookup_lt_Some in Hia. lia.
  - case_decide as Hk; [done|].
    apply lookup_app_Some in Hj as [?|[Hge Hj]]; [done|].
    apply list_lookup_singleton_Some in Hj as [_ <-].
    assert (a ∈ id <$> ts) as [i' Hia]%list_elem_of_lookup
      by (apply Hmem; by eapply list_elem_of_lookup_2).
    exists i'. split; [by apply lookup_app_l_Some|].
    intros j' [Hb|[Hge' _]]%lookup_app_Some.
    + destruct Hk. apply Hmem. by eapply list_elem_of_lookup_2.
    + apply lookup_lt_Some in Hia. lia.
Qed.
End RelatedTasksOrder.

Section RelatedTasksContent.
Import Frontend.

Lemma Map_set_fresh k v m : k ∉ m.*1 → Map_set k v m = m ++ [(k, v)].
Proof.
  induction m as [|[k' v'] m IH]; [done|]. cbn [Map_set].
  rewrite fmap_cons, not_elem_of_cons. cbn [fst]. intros [Hne Hin].
  rewrite decide_False by done. by rewrite IH.
Qed.

Lemma set_each_NoDup ts :
  NoDup (id <$> ts) → set_each ts [] = (fun t => (id t, t)) <$> ts.
Proof.
  induction ts as [|t ts IH] using rev_ind; [done|].
  rewrite fmap_app, NoDup_app. intros (Hts & Hnew & _).
  rewrite set_each_app. simpl. rewrite IH by done.
  rewrite Map_set_fresh, fmap_app; [done|].
  rewrite <- list_fmap_compose. intros Hin. apply (Hnew (id t)); [done|].
  by left.
Qed.

(** X14. When no id occurs twice among the parent, [relationships.children]
and [taskChildren], the dialog lists exactly these tasks, in that order,
none dropped and none altered. *)
Theorem relatedTasks_without_duplicates relationships data :
  NoDup (id <$> sources relationships data) →
  relatedTasks relationships data = sources relationships data.
Proof.
  intros Hnd. rewrite relatedTasks_sources, set_each_NoDup by done.
  unfold Map_values. rewrite <- list_fmap_compose. apply list_fmap_id.
Qed.

Lemma relatedTasks_without_duplicates_witness :
  let p := {| id := "p"; title := "parent"; description := None |} in
  let a := {| id := "a"; title := "first"; description := None |} in
  let b := {| id := "b"; title := "second"; description := Some "d" |} in
  relatedTasks (Some {| parent_task := Some p; children := [a] |}) (Some [b])
  = [p; a; b].
Proof.
  intros p a b.
  apply (relatedTasks_without_duplicates
           (Some {| parent_task := Some p; children := [a] |}) (Some [b])).
  apply (bool_decide_unpack _). vm_compute. exact I.
Defined.

Lemma relatedTasks_ids_NoDup relationships data :
  NoDup (id <$> relatedTasks relationships data).
Proof.
  rewrite relatedTasks_ids, reverse_Permutation. apply NoDup_remove_dups.
Qed.

Lemma relatedTasks_ids_elem_of relationships data i :
  i ∈ id <$> relatedTasks relationships data
  ↔ i ∈ id <$> sources relationships data.
Proof.
  by rewrite relatedTasks_ids, elem_of_reverse, elem_of_remove_dups,
    elem_of_reverse.
Qed.

(** X15. The number of rows that the dialog counts in its header is the
number of distinct ids among the tasks the two queries returned: never
more than the tasks returned, and zero only when they returned none. *)
Theorem relatedTasks_count relationships data :
  length (relatedTasks relationships data)
  = size (list_to_set (id <$> sources relationships data) : gset string)
  ∧ (length (relatedTasks relationships data)
     ≤ length (sources relationships data))%nat
  ∧ (relatedTasks relationships data = [] ↔ sources relationships data = []).
Proof.
  pose proof (relatedTasks_ids_NoDup relationships data) as Hnd.
  pose proof (relatedTasks_ids_elem_of relationships data) as Hel.
  split_and!.
  - rewrite <- (length_fmap id (relatedTasks _ _)).
    rewrite <- (size_list_to_set (C := gset string)) by done.
    f_equal. apply set_eq. intros i. by rewrite !elem_of_list_to_set, Hel.
  - rewrite <- (length_fmap id (relatedTasks _ _)).
    rewrite <- (length_fmap id (sources _ _)).
    apply submseteq_length, NoDup_submseteq; [done|]. intros i. apply Hel.
  - split; intros E.
    + destruct (sources relationships data) as [|t ts] eqn:Es; [done|].
      assert (id t ∈ id <$> relatedTasks relationships data) as Hin
        by (apply Hel; rewrite ?Es, fmap_cons; by left).
      rewrite E in Hin. by apply elem_of_nil in Hin.
    + destruct (relatedTasks relationships data) as [|t ts] eqn:Er; [done|].
      assert (id t ∈ id <$> sources relationships data) as Hin
        by (apply Hel; rewrite ?Er, fmap_cons; by left).
      rewrite E in Hin. by apply elem_of_nil in Hin.
Qed.

(** The first key of a map stays first; its value stays too unless the key
is set again. *)
Lemma set_each_head cs k0 v0 m :
  ∃ v rest, set_each cs ((k0, v0) :: m) = (k0, v) :: rest
            ∧ (k0 ∉ id <$> cs → v = v0).
Proof.
  revert v0 m. induction cs as [|c cs IH]; intros v0 m.
  { by exists v0, m. }
  unfold set_each in *. cbn [foldl Map_set].
  destruct (decide (k0 = id c)) as [->|Hne].
  - destruct (IH c m) as (v & rest & -> & _). exists v, rest.
    split; [done|]. intros Hnin. destruct Hnin. rewrite fmap_cons. by left.
  - destruct (IH v0 (Map_set (id c) c m)) as (v & rest & -> & Hv).
    exists v, rest. split; [done|]. intros Hnin. apply Hv.
    intros Hin. apply Hnin. rewrite fmap_cons. by right.
Qed.

(** X16. When the relationships response has a parent, the first row of
the dialog carries the parent's id; it shows the parent as that response
has it unless a child of either response comes under the same id. *)
Theorem relatedTasks_parent_first rel p data :
  parent_task rel = Some p →
  ∃ t rest, relatedTasks (Some rel) data = t :: rest
            ∧ id t = id p
            ∧ (id p ∉ id <$> (children rel ++ nullish data []) → t = p).
Proof.
  intros Hp. rewrite relatedTasks_sources.
  unfold sources. simpl. rewrite Hp. simpl.
  set (cs := children rel ++ nullish data []).
  change (set_each (p :: cs) []) with (set_each cs [(id p, p)]).
  pose proof (set_each_key_id (p :: cs) (id p)) as Hkey.
  change (set_each (p :: cs) []) with (set_each cs [(id p, p)]) in Hkey.
  destruct (set_each_head cs (id p) p []) as (v & rest & E & Hv).
  rewrite E in *. exists v, (Map_values rest). split_and!; [done| |done].
  symmetry. apply Hkey. by left.
Qed.

Lemma relatedTasks_parent_first_witness :
  let p := {| id := "p"; title := "parent"; description := None |} in
  let p' := {| id := "p"; title := "as a child"; description := None |} in
  ∃ t rest,
    relatedTasks (Some {| parent_task := Some p; children := [] |})
      (Some [p']) = t :: rest
    ∧ id t = "p".
Proof.
  intros p p'.
  destruct (relatedTasks_parent_first
              {| parent_task := Some p; children := [] |} p (Some [p']))
    as (t & rest & E & Hid & _); [reflexivity|].
  by exists t, rest.
Defined.

(** X17. A task that the children query returned, under an id that the
query returned once, is in the dialog's list as that query has it: where
the two responses disagree about a task, the children query's word
stands. *)
Theorem taskChildren_shown relationships tc t :
  NoDup (id <$> tc) →
  t ∈ tc →
  t ∈ relatedTasks relationships (Some tc).
Proof.
  intros Hnd Hin. rewrite relatedTasks_sources.
  unfold Map_values. apply list_elem_of_fmap. exists (id t, t).
  split; [done|]. apply set_each_spec. split; [done|].
  apply list_elem_of_split in Hin as (l1 & l2 & ->).
  exists (from_option (fun r => option_list (parent_task r) ++ children r) []
            relationships ++ l1), l2.
  split.
  - unfold sources. simpl. by rewrite <- app_assoc.
  - intros u Hu E. rewrite fmap_app, fmap_cons in Hnd.
    apply NoDup_app in Hnd as (_ & _ & Hnd).
    apply NoDup_cons in Hnd as [Hnd _]. apply Hnd. rewrite <- E.
    by apply list_elem_of_fmap_2.
Qed.

Lemma taskChildren_shown_witness :
  let a := {| id := "a"; title := "stale"; description := None |} in
  let a' := {| id := "a"; title := "fresh"; description := Some "d" |} in
  a' ∈ relatedTasks (Some {| parent_task := None; children := [a] |})
         (Some [a']).
Proof.
  intros a a'.
  apply (taskChildren_shown
           (Some {| parent_task := None; children := [a] |}) [a'] a').
  - apply (bool_decide_unpack _). vm_compute. exact I.
  - by left.
Defined.
End RelatedTasksContent.

(** * An index name that is taken *)

Section TakenName.
Import Sqlite Migration Applies.

Lemma create_index_named u n' t cols w d d' n :
  create_index u true n' t cols w d = Ok d' →
  index_exists n d = true →
  index_exists n d' = true
  ∧ ∀ ix, idx_name ix = n → (ix ∈ db_indexes d' ↔ ix ∈ db_indexes d).
Proof.
  intros Hc Hn. split; [by eapply create_index_preserves_exists|].
  apply create_index_Ok in Hc as (tb & _ & _ & _ & [[_ ->]|(Hno & _ & _ & ->)]);
    [done|].
  intros ix Hix. rewrite elem_of_app, list_elem_of_singleton. split; [|by left].
  intros [?| ->]; [done|]. simpl in Hix. subst n'. congruence.
Qed.

(** X18. [IF NOT EXISTS] goes by the name alone.  When the store already
has an index under some name, that of [ux_tasks_parent_phase] included, a
successful migration leaves the name to the index that was there,
whatever that index is over: it neither replaces it nor adds one beside
it. *)
Theorem existing_index_kept d0 d1 n :
  index_exists n d0 = true →
  run migration d0 = Ok d1 →
  ∀ ix, idx_name ix = n → (ix ∈ db_indexes d1 ↔ ix ∈ db_indexes d0).
Proof.
  intros Hn Hrun ix Hix.
  unfold migration in Hrun. rewrite run_app in Hrun.
  apply bind_Ok in Hrun as (d & Hc & Hi).
  apply run_add_columns in Hc as (_ & _ & _ & _ & Hixs).
  rewrite <- Hixs.
  assert (index_exists n d = true) as Hnd
    by (unfold index_exists in *; by rewrite Hixs).
  unfold create_indexes in Hi. simpl in Hi.
  apply bind_Ok in Hi as (da & H1 & Hi).
  apply bind_Ok in Hi as (db & H2 & Hi).
  apply bind_Ok in Hi as (dc & H3 & [= <-]).
  destruct (create_index_named _ _ _ _ _ _ _ n H1 Hnd) as [Hna E1].
  destruct (create_index_named _ _ _ _ _ _ _ n H2 Hna) as [Hnb E2].
  destruct (create_index_named _ _ _ _ _ _ _ n H3 Hnb) as [_ E3].
  by rewrite E3, E2, E1.
Qed.

Lemma existing_index_kept_witness :
  ∃ d1, run migration Example.taken_name = Ok d1
        ∧ ∀ ix, idx_name ix = "ux_tasks_parent_phase" →
                (ix ∈ db_indexes d1 ↔ ix ∈ db_indexes Example.taken_name).
Proof.
  exists (match run migration Example.taken_name with
          | Ok d => d
          | Err _ => Example.taken_name
          end).
  split; [vm_compute; reflexivity|].
  apply (existing_index_kept Example.taken_name).
  - reflexivity.
  - vm_compute; reflexivity.
Defined.

(** On such a store the slot is not guarded: two children of one parent in
the same phase are both stored. *)
Example taken_name_unguarded :
  is_ok (d ← run migration Example.taken_name;
         d ← insert_into "tasks" (Example.child x02 "B" x01 "design") d;
         insert_into "tasks" (Example.child x03 "B'" x01 "design") d) = true.
Proof. vm_compute. reflexivity. Qed.
End TakenName.
